(** * Resume relevance check: the matching engine

    A shallow embedding of the matching core of the repository
    ([backend/app/utils/text_preprocessor.py],
    [backend/app/services/matching_service.py],
    [backend/app/services/embedding_service.py], [backend/app/config.py]),
    of the document parser ([backend/app/utils/document_parser.py]) and of
    the upload checks of [backend/app/main.py], and the properties of its
    specification.

    Conventions of the embedding.
    - A Python [str] is a [string]; the text functions work on its
      characters ([list ascii]).  The model reads ASCII text: the classes
      [\w], [\s], [\d] and [str.lower] are the ASCII ones, so what is
      proved of the normalised text is proved for ASCII input.
    - Scores are Python floats.  The scoring code is embedded over exact
      rationals ([Q]), so a score of the model and the binary64 number that
      the code computes may differ in the last digits.  The similarity of
      the embedding service, where IEEE arithmetic decides the outcome of
      the degenerate division, is embedded over binary64 floats
      ([PrimFloat]); numpy computes it in the precision of the model's
      vectors.
    - A Python [set] is a [gset], a [dict] is a [gmap]; [list(s)] of a set
      [s] is [elements s]: the elements are those of the code, their order
      is the model's (Python's depends on hashing).
    - Collaborators that live outside the repository (spaCy, fuzzywuzzy's
      scorer, the sentence-transformer model, the AI services) are fields of
      interface records. *)

From Stdlib Require Import QArith Qminmax Qround Lqa ZArith Ascii String List Sorted.
From Stdlib Require Import PrimFloat SpecFloat FloatOps FloatAxioms.
From stdpp Require Import gmap strings list.

Open Scope string_scope.

(** ** Characters and regular expressions *)

Module Text.

Definition code (c : ascii) : N := N_of_ascii c.

Definition in_range (lo hi : N) (c : ascii) : bool :=
  ((lo <=? code c) && (code c <=? hi))%N.

Definition is_char (a c : ascii) : bool := (code a =? code c)%N.

(** The ASCII characters: codes 0 to 127. *)
Definition is_ascii : ascii -> bool := in_range 0 127.

Definition is_upper : ascii -> bool := in_range 65 90.
Definition is_lower : ascii -> bool := in_range 97 122.
Definition is_digit : ascii -> bool := in_range 48 57.
Definition is_alpha (c : ascii) : bool := is_upper c || is_lower c.

(** [\w]: letters, digits and the underscore. *)
Definition is_word (c : ascii) : bool :=
  is_alpha c || is_digit c || is_char "_" c.

(** [\s], [str.split()] and [str.strip()]: tab, line feed, vertical tab,
    form feed, carriage return, the four separators 28..31 and the space. *)
Definition is_space (c : ascii) : bool :=
  in_range 9 13 c || in_range 28 31 c || is_char " " c.

(** [str.lower] on one character. *)
Definition lower_char (c : ascii) : ascii :=
  if is_upper c then ascii_of_N (code c + 32) else c.

Definition lower (s : list ascii) : list ascii := map lower_char s.

(** The fragment of Python's [re] syntax that [preprocess_text] uses. *)
Inductive regex : Type :=
| Class (p : ascii -> bool)
| Cat (r1 r2 : regex)
| Or (r1 r2 : regex)
| Repeat (lo : nat) (hi : option nat) (r : regex)
| WordBoundary.

Definition is_word_at (o : option ascii) : bool :=
  match o with Some c => is_word c | None => false end.

Definition below (hi : option nat) (i : nat) : bool :=
  match hi with Some h => (i <? h)%nat | None => true end.

(** A greedy repetition [r{lo,hi}] of the matcher [step]: one more iteration
    first, then the rest of the pattern ([k]) once [lo] iterations are done.
    [i] counts the iterations; an iteration has to consume a character, so
    [fuel], the length of the text, bounds their number. *)
Fixpoint iterate
    (step : option ascii -> list ascii ->
            (option ascii -> list ascii -> option nat) -> option nat)
    (lo : nat) (hi : option nat)
    (k : option ascii -> list ascii -> option nat)
    (fuel i : nat) (prev : option ascii) (s : list ascii) {struct fuel}
    : option nat :=
  let stop := if (lo <=? i)%nat then k prev s else None in
  match fuel with
  | O => stop
  | S fuel' =>
      if below hi i then
        match step prev s
                (fun prev' s' =>
                   if (length s' <? length s)%nat
                   then iterate step lo hi k fuel' (S i) prev' s' else None) with
        | Some n => Some n
        | None => stop
        end
      else stop
  end.

(** Backtracking matcher in continuation-passing style, with the priorities
    of [re]: the left alternative first, one more iteration of a greedy
    repetition first.  [prev] is the character before the position ([\b]
    looks at it), [s] the text from the position on; the continuation gets
    both at the end of the sub-match.  The answer is the number of characters
    left after the whole match. *)
Fixpoint rmatch (r : regex) (prev : option ascii) (s : list ascii)
    (k : option ascii -> list ascii -> option nat) {struct r} : option nat :=
  match r with
  | Class p =>
      match s with
      | c :: s' => if p c then k (Some c) s' else None
      | [] => None
      end
  | Cat r1 r2 => rmatch r1 prev s (fun prev' s' => rmatch r2 prev' s' k)
  | Or r1 r2 =>
      match rmatch r1 prev s k with
      | Some n => Some n
      | None => rmatch r2 prev s k
      end
  | Repeat lo hi r1 => iterate (rmatch r1) lo hi k (length s) 0 prev s
  | WordBoundary =>
      if xorb (is_word_at prev) (is_word_at (head s)) then k prev s else None
  end.

(** [pattern.match] at one position: the number of characters matched. *)
Definition match_here (r : regex) (prev : option ascii) (s : list ascii)
    : option nat :=
  match rmatch r prev s (fun _ rest => Some (length rest)) with
  | Some rest => Some (length s - rest)
  | None => None
  end.

(** [re.sub(r, repl, s)]: scan from the left; at a match of [m > 0]
    characters emit [repl] and go on after it, otherwise copy one
    character.  (No pattern of this file matches the empty string.) *)
Fixpoint sub_scan (fuel : nat) (r : regex) (repl : list ascii)
    (prev : option ascii) (s : list ascii) : list ascii :=
  match fuel with
  | O => s
  | S fuel' =>
      match s with
      | [] => []
      | c :: s' =>
          match match_here r prev s with
          | Some (S m) =>
              repl ++ sub_scan fuel' r repl (last (firstn (S m) s)) (skipn (S m) s)
          | _ => c :: sub_scan fuel' r repl (Some c) s'
          end
      end
  end.

Definition re_sub (r : regex) (repl : list ascii) (s : list ascii) : list ascii :=
  sub_scan (length s) r repl None s.

Definition lit (c : ascii) : regex := Class (is_char c).

Fixpoint lits (s : list ascii) (r : regex) : regex :=
  match s with
  | [] => r
  | c :: s' => Cat (lit c) (lits s' r)
  end.

Definition plus (r : regex) : regex := Repeat 1 None r.
Definition opt (r : regex) : regex := Repeat 0 (Some 1) r.
Definition times (n : nat) (r : regex) : regex := Repeat n (Some n) r.

Definition one_of (cs : list ascii) (c : ascii) : bool :=
  existsb (fun a => is_char a c) cs.

Definition is_hex (c : ascii) : bool :=
  is_digit c || in_range 97 102 c || in_range 65 70 c.

(** [\s+] *)
Definition re_spaces : regex := plus (Class is_space).

(** [http[s]?://(?:[a-zA-Z]|[0-9]|[$-_@.&+]|[!*\\(\\),]|(?:%[0-9a-fA-F][0-9a-fA-F]))+] *)
Definition re_url : regex :=
  lits (list_ascii_of_string "http")
    (Cat (opt (lit "s"))
       (lits (list_ascii_of_string ":/")
          (Cat (lit "/")
             (plus
                (Or (Class is_alpha)
                   (Or (Class is_digit)
                      (Or (Class (fun c => in_range 36 95 c
                                           || one_of ["@"; "."; "&"; "+"]%char c))
                         (Or (Class (one_of ["!"; "*"; "\"; "("; ")"; ","]%char))
                            (Cat (lit "%")
                               (Cat (Class is_hex) (Class is_hex))))))))))).

(** [\b[A-Za-z0-9._%+-]+@[A-Za-z0-9.-]+\.[A-Z|a-z]{2,}\b] *)
Definition re_email : regex :=
  Cat WordBoundary
    (Cat (plus (Class (fun c => is_alpha c || is_digit c
                                || one_of ["."; "_"; "%"; "+"; "-"]%char c)))
       (Cat (lit "@")
          (Cat (plus (Class (fun c => is_alpha c || is_digit c
                                      || one_of ["."; "-"]%char c)))
             (Cat (lit ".")
                (Cat (Repeat 2 None (Class (fun c => is_alpha c || is_char "|" c)))
                   WordBoundary))))).

Definition re_sep : regex := opt (Class (fun c => one_of ["-"; "."]%char c || is_space c)).

(** [(\+\d{1,3}[-.\s]?)?\(?\d{3}\)?[-.\s]?\d{3}[-.\s]?\d{4}] *)
Definition re_phone : regex :=
  Cat (opt (Cat (lit "+") (Cat (Repeat 1 (Some 3) (Class is_digit)) re_sep)))
    (Cat (opt (lit "("))
       (Cat (times 3 (Class is_digit))
          (Cat (opt (lit ")"))
             (Cat re_sep
                (Cat (times 3 (Class is_digit))
                   (Cat re_sep (times 4 (Class is_digit)))))))).

(** [[^\w\s]] *)
Definition re_punct : regex := Class (fun c => negb (is_word c || is_space c)).

(** [str.split()]: the maximal runs of non-space characters.  [cur] holds
    the characters of the current run, last one first. *)
Fixpoint split_from (cur : list ascii) (s : list ascii) : list (list ascii) :=
  match s with
  | [] => match cur with [] => [] | _ => [rev cur] end
  | c :: s' =>
      if is_space c
      then match cur with [] => split_from [] s' | _ => rev cur :: split_from [] s' end
      else split_from (c :: cur) s'
  end.

Definition split (s : list ascii) : list (list ascii) := split_from [] s.

(** [' '.join(words)] *)
Fixpoint join (words : list (list ascii)) : list ascii :=
  match words with
  | [] => []
  | [w] => w
  | w :: ws => w ++ " "%char :: join ws
  end.

Fixpoint lstrip (s : list ascii) : list ascii :=
  match s with
  | c :: s' => if is_space c then lstrip s' else s
  | [] => []
  end.

(** [str.strip()] *)
Definition strip (s : list ascii) : list ascii := rev (lstrip (rev (lstrip s))).

(** [TextPreprocessor.preprocess_text] on the characters of the text. *)
Definition preprocess_chars (text : list ascii) : list ascii :=
  match text with
  | [] => []
  | _ =>
      let text := lower text in
      let text := re_sub re_spaces [" "%char] text in
      let text := re_sub re_url [] text in
      let text := re_sub re_email [] text in
      let text := re_sub re_phone [] text in
      let text := re_sub re_punct [" "%char] text in
      let text := join (split text) in
      strip text
  end.

Definition preprocess_text (text : string) : string :=
  string_of_list_ascii (preprocess_chars (list_ascii_of_string text)).

(** [s.split(sep)] for a one-character separator: the pieces between the
    separators, empty ones included; never an empty list. *)
Fixpoint split_on (sep : ascii) (s : list ascii) : list (list ascii) :=
  match s with
  | [] => [[]]
  | c :: s' =>
      if is_char sep c then [] :: split_on sep s'
      else match split_on sep s' with
           | w :: ws => (c :: w) :: ws
           | [] => [[c]]
           end
  end.

End Text.

(** ** Exceptions

    A call that may raise returns an [outcome]; [try_except] is a
    [try: ... except Exception: ...] block. *)

Inductive outcome (A : Type) : Type :=
| Ok (a : A)
| Raise (e : string).

Arguments Ok {A} a.
Arguments Raise {A} e.

#[global] Instance outcome_bind : MBind outcome :=
  fun A B (k : A -> outcome B) (c : outcome A) =>
    match c with
    | Ok a => k a
    | Raise e => Raise e
    end.

Definition try_except {A : Type} (body : outcome A) (handler : string -> A) : A :=
  match body with
  | Ok a => a
  | Raise e => handler e
  end.

(** ** Python's [min] and [max] on numbers *)

Definition py_max (a b : Q) : Q := if Qlt_le_dec a b then b else a.
Definition py_min (a b : Q) : Q := if Qlt_le_dec b a then b else a.
Definition of_nat (n : nat) : Q := inject_Z (Z.of_nat n).

(** [max(iterable, key=...)]: the first element with the greatest key. *)
Fixpoint max_by {A : Type} (key : A -> Z) (best : A) (l : list A) : A :=
  match l with
  | [] => best
  | x :: l' => max_by key (if (key best <? key x)%Z then x else best) l'
  end.

(** ** The text preprocessor *)

Module Preprocessor.

Definition lower (s : string) : string :=
  string_of_list_ascii (Text.lower (list_ascii_of_string s)).

Definition split (s : string) : list string :=
  map string_of_list_ascii (Text.split (list_ascii_of_string s)).

(** [needle in haystack] *)
Fixpoint contains (needle haystack : string) : bool :=
  String.prefix needle haystack ||
  match haystack with
  | EmptyString => false
  | String _ rest => contains needle rest
  end.

(** What the code reads of a spaCy token and document. *)
Record token : Type := {
  token_text : string;
  lemma_ : string;
  is_stop : bool;
  is_punct : bool
}.

Record doc : Type := {
  ents : list string;
  noun_chunks : list string;
  tokens : list token;
  sents : list string
}.

(** The collaborators of [TextPreprocessor]: the spaCy pipeline [self.nlp]
    ([None] when the model is not installed; a call may raise) and
    fuzzywuzzy's [fuzz.token_sort_ratio], a score on the 0..100 scale. *)
Record TextPreprocessor : Type := {
  nlp : option (string -> outcome doc);
  token_sort_ratio : string -> string -> Z
}.

Definition preprocess_text : string -> string := Text.preprocess_text.

Definition long_enough (min_length : nat) (s : string) : bool :=
  (min_length <=? String.length s)%nat.

Definition extract_keywords (P : TextPreprocessor) (text : string)
    (min_length : nat) : outcome (list string) :=
  match text with
  | EmptyString => Ok []
  | _ =>
      let clean_text := preprocess_text text in
      found ← match nlp P with
               | Some analyse =>
                   d ← analyse clean_text;
                   Ok (map lower (filter (long_enough min_length) (ents d))
                       ++ map lower (filter (long_enough min_length) (noun_chunks d))
                       ++ map (fun t => lower (lemma_ t))
                            (filter (fun t => negb (is_stop t) && negb (is_punct t)
                                              && long_enough min_length (token_text t))
                               (tokens d)))%list
               | None => Ok []
               end;
      let words := split clean_text in
      Ok (elements (list_to_set (C := gset string)
                      (found ++ filter (long_enough min_length) words)%list))
  end.

Definition technical_skills : list (string * list string) :=
  [ ("programming_languages",
     ["python"; "java"; "javascript"; "c++"; "c#"; "php"; "ruby"; "go"; "rust";
      "typescript"; "kotlin"; "swift"; "scala"; "r"; "matlab"; "perl"]);
    ("frameworks",
     ["react"; "angular"; "vue"; "django"; "flask"; "spring"; "express";
      "laravel"; "rails"; "fastapi"; "node.js"; "asp.net"]);
    ("databases",
     ["mysql"; "postgresql"; "mongodb"; "sqlite"; "redis"; "elasticsearch";
      "oracle"; "sql server"; "cassandra"; "firebase"]);
    ("cloud_platforms",
     ["aws"; "azure"; "gcp"; "google cloud"; "heroku"; "digitalocean";
      "docker"; "kubernetes"; "terraform"]);
    ("tools",
     ["git"; "jenkins"; "jira"; "confluence"; "postman"; "figma";
      "photoshop"; "illustrator"; "tableau"; "power bi"]);
    ("data_science",
     ["machine learning"; "deep learning"; "tensorflow"; "pytorch";
      "scikit-learn"; "pandas"; "numpy"; "matplotlib"; "seaborn";
      "jupyter"; "data analysis"; "statistics"]) ].

Definition extract_technical_skills (text : string) : list string :=
  let text_lower := lower text in
  let found_skills :=
    flat_map (fun '(_, skills) =>
                filter (fun skill => contains skill text_lower) skills)
      technical_skills in
  elements (list_to_set (C := gset string) found_skills).

Definition certifications : list string :=
  ["aws certified"; "azure certified"; "google cloud certified";
   "pmp"; "cissp"; "ceh"; "ccna"; "ccnp"; "ccie";
   "oracle certified"; "microsoft certified"; "comptia";
   "scrum master"; "product owner"; "six sigma"].

Definition extract_certifications (text : string) : list string :=
  let text_lower := lower text in
  filter (fun cert => contains cert text_lower) certifications.

Record fuzzy_match : Type := {
  matched_skill : string;
  similarity : Q
}.

(** fuzzywuzzy's [process.extractOne(query, choices, scorer=...)]: every
    choice is scored against the query and the best pair is returned,
    [None] when there is no choice. *)
Definition extractOne (scorer : string -> string -> Z) (query : string)
    (choices : list string) : option (string * Z) :=
  match map (fun choice => (choice, scorer query choice)) choices with
  | [] => None
  | first :: others => Some (max_by snd first others)
  end.

(** One round of the loop of [fuzzy_match_skills]: the entry written for
    [job_skill], if any. *)
Definition kept_match (P : TextPreprocessor) (resume_skills : list string)
    (threshold : Z) (job_skill : string) : option fuzzy_match :=
  match extractOne (token_sort_ratio P) job_skill resume_skills with
  | Some best_match =>
      if (threshold <=? snd best_match)%Z
      then Some {| matched_skill := fst best_match;
                   similarity := (inject_Z (snd best_match) / 100)%Q |}
      else None
  | None => None
  end.

Definition fuzzy_match_skills (P : TextPreprocessor)
    (resume_skills job_skills : list string) (threshold : Z)
    : gmap string fuzzy_match :=
  foldl (fun matches job_skill =>
           match kept_match P resume_skills threshold job_skill with
           | Some m => <[job_skill := m]> matches
           | None => matches
           end)
    ∅ job_skills.

(** The three metrics of the textdistance package that the code calls:
    [jaccard] and [cosine] on word lists, [jaro_winkler] on strings. *)
Record TextDistance : Type := {
  jaccard : list string -> list string -> Q;
  cosine : list string -> list string -> Q;
  jaro_winkler : string -> string -> Q
}.

Definition calculate_text_similarity (D : TextDistance) (text1 text2 : string) : Q :=
  match text1, text2 with
  | EmptyString, _ | _, EmptyString => 0%Q
  | _, _ =>
      let clean_text1 := preprocess_text text1 in
      let clean_text2 := preprocess_text text2 in
      let jaccard_sim := jaccard D (split clean_text1) (split clean_text2) in
      let cosine_sim := cosine D (split clean_text1) (split clean_text2) in
      let jaro_winkler_sim := jaro_winkler D clean_text1 clean_text2 in
      (jaccard_sim * 0.3 + cosine_sim * 0.4 + jaro_winkler_sim * 0.3)%Q
  end.

End Preprocessor.

(** ** Settings ([config.py]) *)

Module Settings.

Definition hard_match_weight : Q := 0.4%Q.
Definition semantic_match_weight : Q := 0.6%Q.

Definition max_file_size : Z := 10485760.
Definition allowed_extensions : list string := ["pdf"; "docx"].

(** [str.strip()] *)
Definition strip (s : string) : string :=
  string_of_list_ascii (Text.strip (list_ascii_of_string s)).

(** [v.split(',')] *)
Definition split_commas (v : string) : list string :=
  map string_of_list_ascii (Text.split_on ","%char (list_ascii_of_string v)).

(** The value handed to the validator of [allowed_extensions]: a string
    (from the environment) or a list already. *)
Inductive raw_extensions : Type :=
| Str (v : string)
| Listed (v : list string).

Definition parse_extensions (v : raw_extensions) : list string :=
  match v with
  | Str v => map strip (split_commas v)
  | Listed v => v
  end.

End Settings.

(** ** The matching engine ([matching_service.py]) *)

Module Matching.

Import Preprocessor.

#[local] Open Scope Q_scope.

(** The OpenAI and HuggingFace services, as the engine calls them. *)
Record OpenAIService : Type := {
  openai_is_available : bool;
  analyze_resume_job_match : string -> string -> outcome string;
  generate_improvement_suggestions :
    string -> string -> list string -> outcome (list string)
}.

Record HuggingFaceService : Type := {
  huggingface_is_available : bool;
  analyze_job_resume_compatibility : string -> string -> outcome string
}.

(** [MatchingEngine]: its collaborators and the two weights read from the
    settings.  [calculate_semantic_similarity] is the embedding service's
    method, which returns a number for every pair of texts. *)
Record MatchingEngine : Type := {
  preprocessor : TextPreprocessor;
  calculate_semantic_similarity : string -> string -> Q;
  openai_service : OpenAIService;
  huggingface_service : HuggingFaceService;
  hard_match_weight : Q;
  semantic_match_weight : Q
}.

Record hard_match_results : Type := {
  hard_match_score : Q;
  skill_matches : list string;
  keyword_matches : list string;
  cert_matches : list string;
  fuzzy_skill_matches : gmap string fuzzy_match;
  missing_skills : list string;
  missing_certs : list string;
  skill_score : Q;
  keyword_score : Q;
  cert_score : Q
}.

Definition set_of (l : list string) : gset string := list_to_set l.

(** [sum(match['similarity'] for match in matches.values())] *)
Definition sum_similarity (matches : gmap string fuzzy_match) : Q :=
  foldr (fun m acc => similarity m + acc) 0 (map snd (map_to_list matches)).

(** The [try] block of [calculate_hard_match_score]. *)
Definition hard_match_body (E : MatchingEngine) (resume_text job_text : string)
    : outcome hard_match_results :=
  let resume_skills := extract_technical_skills resume_text in
  let job_skills := extract_technical_skills job_text in
  resume_keywords ← extract_keywords (preprocessor E) resume_text 2;
  job_keywords ← extract_keywords (preprocessor E) job_text 2;
  let resume_certs := extract_certifications resume_text in
  let job_certs := extract_certifications job_text in
  let skill_matches := set_of resume_skills ∩ set_of job_skills in
  let keyword_matches := set_of resume_keywords ∩ set_of job_keywords in
  let cert_matches := set_of resume_certs ∩ set_of job_certs in
  let fuzzy_skill_matches :=
    fuzzy_match_skills (preprocessor E) resume_skills job_skills 75 in
  let skill_score :=
    match job_skills with
    | [] => 0
    | _ =>
        let exact_skill_score := of_nat (size skill_matches) / of_nat (length job_skills) in
        let fuzzy_skill_score :=
          sum_similarity fuzzy_skill_matches / of_nat (length job_skills) in
        py_max exact_skill_score (fuzzy_skill_score * 0.8)
    end in
  let keyword_score :=
    match job_keywords with
    | [] => 0
    | _ => of_nat (size keyword_matches) / of_nat (length job_keywords)
    end in
  let cert_score :=
    match job_certs with
    | [] => 0
    | _ => of_nat (size cert_matches) / of_nat (length job_certs)
    end in
  let hard_match_score :=
    skill_score * 0.6 + keyword_score * 0.3 + cert_score * 0.1 in
  Ok {| hard_match_score := py_min 1 hard_match_score;
        skill_matches := elements skill_matches;
        keyword_matches := elements keyword_matches;
        cert_matches := elements cert_matches;
        fuzzy_skill_matches := fuzzy_skill_matches;
        missing_skills := elements (set_of job_skills ∖ set_of resume_skills);
        missing_certs := elements (set_of job_certs ∖ set_of resume_certs);
        skill_score := skill_score;
        keyword_score := keyword_score;
        cert_score := cert_score |}.

Definition hard_match_failed : hard_match_results :=
  {| hard_match_score := 0;
     skill_matches := [];
     keyword_matches := [];
     cert_matches := [];
     fuzzy_skill_matches := ∅;
     missing_skills := [];
     missing_certs := [];
     skill_score := 0;
     keyword_score := 0;
     cert_score := 0 |}.

Definition calculate_hard_match_score (E : MatchingEngine)
    (resume_text job_text : string) : hard_match_results :=
  try_except (hard_match_body E resume_text job_text)
    (fun _ => hard_match_failed).

Record sentence_match : Type := {
  job_sentence : string;
  resume_sentence : string;
  sentence_similarity : Q
}.

Record semantic_match_results : Type := {
  semantic_match_score : Q;
  sentence_matches : option (list sentence_match);
  contextual_relevance : Q
}.

(** The inner loop over the resume sentences: the first one with the
    greatest similarity above the running best. *)
Fixpoint best_sentence (E : MatchingEngine) (job_sent : string)
    (resume_sentences : list string) (best_sim : Q) (best_resume_sent : string)
    : Q * string :=
  match resume_sentences with
  | [] => (best_sim, best_resume_sent)
  | resume_sent :: rest =>
      let sim := calculate_semantic_similarity E job_sent resume_sent in
      if Qlt_le_dec best_sim sim
      then best_sentence E job_sent rest sim resume_sent
      else best_sentence E job_sent rest best_sim best_resume_sent
  end.

Definition best_matches (E : MatchingEngine)
    (job_sentences resume_sentences : list string) : list sentence_match :=
  flat_map (fun job_sent =>
              let '(best_sim, best_resume_sent) :=
                best_sentence E job_sent resume_sentences 0 "" in
              if Qlt_le_dec 0.3 best_sim
              then [ {| job_sentence := job_sent;
                        resume_sentence := best_resume_sent;
                        sentence_similarity := best_sim |} ]
              else [])
    (firstn 5 job_sentences).

(** A spaCy document is true when it has tokens. *)
Definition doc_nonempty (d : doc) : bool :=
  match tokens d with [] => false | _ => true end.

(** The [try] block of [calculate_semantic_match_score]. *)
Definition semantic_match_body (E : MatchingEngine) (resume_text job_text : string)
    : outcome semantic_match_results :=
  let overall_similarity := calculate_semantic_similarity E resume_text job_text in
  resume_info ← match nlp (preprocessor E) with
                | Some analyse => d ← analyse resume_text; Ok (Some d)
                | None => Ok None
                end;
  job_info ← match nlp (preprocessor E) with
             | Some analyse => d ← analyse job_text; Ok (Some d)
             | None => Ok None
             end;
  let sentence_matches :=
    match resume_info, job_info with
    | Some resume_doc, Some job_doc =>
        if doc_nonempty resume_doc && doc_nonempty job_doc
        then Some (best_matches E (sents job_doc) (sents resume_doc))
        else None
    | _, _ => None
    end in
  Ok {| semantic_match_score := overall_similarity;
        sentence_matches := sentence_matches;
        contextual_relevance := overall_similarity |}.

Definition calculate_semantic_match_score (E : MatchingEngine)
    (resume_text job_text : string) : semantic_match_results :=
  try_except (semantic_match_body E resume_text job_text)
    (fun _ => {| semantic_match_score := 0;
                 sentence_matches := None;
                 contextual_relevance := 0 |}).

Inductive suitability_tier : Type := High | Medium | Low.

Record feedback_results : Type := {
  feedback_missing_skills : list string;
  missing_certifications : list string;
  improvement_suggestions : list string;
  ai_improvement_suggestions : option (list string)
}.

Definition suggest_skills (missing : list string) : list string :=
  match missing with
  | [] => []
  | _ => ["Consider adding these technical skills to your resume: "
          ++ String.concat ", " (firstn 5 missing)]
  end.

Definition suggest_certifications (missing : list string) : list string :=
  match missing with
  | [] => []
  | _ => ["Consider obtaining these certifications: "
          ++ String.concat ", " missing]
  end.

Definition suggest_semantic (semantic_score : Q) : list string :=
  if Qlt_le_dec semantic_score 0.5
  then ["Consider rephrasing your experience descriptions to better align with the job requirements";
        "Add more specific examples and quantifiable achievements related to the job"]
  else [].

Definition suggest_hard (hard_score : Q) : list string :=
  if Qlt_le_dec hard_score 0.4
  then ["Focus on acquiring the key technical skills mentioned in the job description";
        "Include relevant projects that demonstrate your skills in the required technologies"]
  else [].

Definition _generate_feedback (E : MatchingEngine)
    (hard : hard_match_results) (semantic : semantic_match_results)
    (resume_text job_text : string) : feedback_results :=
  let missing := missing_skills hard in
  {| feedback_missing_skills := missing;
     missing_certifications := missing_certs hard;
     improvement_suggestions :=
       (suggest_skills missing
        ++ suggest_certifications (missing_certs hard)
        ++ suggest_semantic (semantic_match_score semantic)
        ++ suggest_hard (hard_match_score hard))%list;
     ai_improvement_suggestions :=
       if openai_is_available (openai_service E)
       then Some (try_except
                    (generate_improvement_suggestions (openai_service E)
                       resume_text job_text missing)
                    (fun _ => []))
       else None |}.

(** One entry of the insights dictionary: the analysis, or the text of
    the error that the call raised. *)
Definition insight (available : bool) (analysis : outcome string)
    : option (string + string) :=
  if available
  then Some (match analysis with
             | Ok a => inr a
             | Raise e => inl e
             end)
  else None.

Record ai_insights_results : Type := {
  openai_analysis : option (string + string);
  huggingface_analysis : option (string + string)
}.

Definition _get_ai_insights (E : MatchingEngine) (resume_text job_text : string)
    : ai_insights_results :=
  {| openai_analysis :=
       insight (openai_is_available (openai_service E))
         (analyze_resume_job_match (openai_service E) resume_text job_text);
     huggingface_analysis :=
       insight (huggingface_is_available (huggingface_service E))
         (analyze_job_resume_compatibility (huggingface_service E)
            resume_text job_text) |}.

Record combined_results : Type := {
  combined_score : Q;
  score_percentage : Q;
  suitability : suitability_tier;
  hard_results : option hard_match_results;
  semantic_results : option semantic_match_results;
  feedback : feedback_results;
  ai_insights : option ai_insights_results
}.

(** The [if]/[elif]/[else] cascade of the classification. *)
Definition classify (combined_score : Q) : suitability_tier :=
  if Qle_bool 0.7 combined_score then High
  else if Qle_bool 0.4 combined_score then Medium
  else Low.

(** [round(x, 2)]: to the nearest hundredth, a tie to the even one. *)
Definition round2 (x : Q) : Q :=
  let y := x * 100 in
  let f := Qfloor y in
  let d := y - inject_Z f in
  let n := if Qlt_le_dec d 0.5 then f
           else if Qlt_le_dec 0.5 d then (f + 1)%Z
           else if Z.even f then f else (f + 1)%Z in
  inject_Z n / 100.

(** The [try] block of [calculate_combined_score].  None of its calls
    raises: both scorers catch their own exceptions. *)
Definition combined_body (E : MatchingEngine) (resume_text job_text : string)
    : outcome combined_results :=
  let hard := calculate_hard_match_score E resume_text job_text in
  let semantic := calculate_semantic_match_score E resume_text job_text in
  let combined_score :=
    hard_match_score hard * hard_match_weight E
    + semantic_match_score semantic * semantic_match_weight E in
  let suitability := classify combined_score in
  let feedback := _generate_feedback E hard semantic resume_text job_text in
  let ai_insights := _get_ai_insights E resume_text job_text in
  Ok {| combined_score := combined_score;
        score_percentage := round2 (combined_score * 100);
        suitability := suitability;
        hard_results := Some hard;
        semantic_results := Some semantic;
        feedback := feedback;
        ai_insights := Some ai_insights |}.

Definition combined_failed : combined_results :=
  {| combined_score := 0;
     score_percentage := 0;
     suitability := Low;
     hard_results := None;
     semantic_results := None;
     feedback := {| feedback_missing_skills := [];
                    missing_certifications := [];
                    improvement_suggestions := ["Error occurred during analysis"];
                    ai_improvement_suggestions := None |};
     ai_insights := None |}.

Definition calculate_combined_score (E : MatchingEngine)
    (resume_text job_text : string) : combined_results :=
  try_except (combined_body E resume_text job_text) (fun _ => combined_failed).

(** One entry of [resume_data]: a dictionary read with [.get]. *)
Record resume : Type := {
  resume_text_field : option string;
  resume_id_field : option string;
  resume_metadata_field : option (list (string * string))
}.

Record batch_result : Type := {
  match_results : combined_results;
  resume_id : string;
  resume_metadata : list (string * string)
}.

(** The [try] block of the loop of [batch_process_resumes]; [score] is
    the call of [self.calculate_combined_score]. *)
Definition batch_body (score : string -> string -> outcome combined_results)
    (job_text : string) (r : resume) : outcome batch_result :=
  let resume_text := default "" (resume_text_field r) in
  let resume_id := default "" (resume_id_field r) in
  match_results ← score resume_text job_text;
  Ok {| match_results := match_results;
        resume_id := resume_id;
        resume_metadata := default [] (resume_metadata_field r) |}.

(** The loop of [batch_process_resumes]: a candidate whose [try] block
    raises is logged and skipped ([continue]). *)
Definition batch_results (score : string -> string -> outcome combined_results)
    (job_text : string) (resume_data : list resume) : list batch_result :=
  flat_map (fun r =>
              match batch_body score job_text r with
              | Ok res => [res]
              | Raise _ => []
              end)
    resume_data.

(** [list.sort(key=..., reverse=True)]: a stable sort by decreasing key.
    [insert_desc x l] puts [x] in front of the first element whose key is
    not greater than the key of [x]. *)
Fixpoint insert_desc {A : Type} (key : A -> Q) (x : A) (l : list A) : list A :=
  match l with
  | [] => [x]
  | y :: l' =>
      if Qlt_le_dec (key x) (key y) then y :: insert_desc key x l' else x :: l
  end.

Definition sort_desc {A : Type} (key : A -> Q) (l : list A) : list A :=
  foldr (insert_desc key) [] l.

Definition batch_process_with (score : string -> string -> outcome combined_results)
    (job_text : string) (resume_data : list resume) : list batch_result :=
  sort_desc (fun x => combined_score (match_results x))
    (batch_results score job_text resume_data).

(** The method itself: the call returns what [calculate_combined_score]
    returns. *)
Definition batch_process_resumes (E : MatchingEngine) (job_text : string)
    (resume_data : list resume) : list batch_result :=
  batch_process_with
    (fun resume_text job_text => Ok (calculate_combined_score E resume_text job_text))
    job_text resume_data.

End Matching.

(** ** The embedding service ([embedding_service.py]) *)

Module Embedding.

#[local] Open Scope float_scope.

(** The sentence-transformer model: its fixed dimension and [encode],
    which may raise.  Vectors are lists of binary64 numbers. *)
Record SentenceTransformer : Type := {
  get_sentence_embedding_dimension : nat;
  encode : string -> outcome (list float)
}.

(** One record of a ChromaDB collection. *)
Record stored : Type := {
  embedding : list float;
  document : string;
  metadata : list (string * string)
}.

(** The mutable state of the service: the two collections of the vector
    store, keyed by document id, and the texts handed to [model.encode]
    so far (oldest first). *)
Record service_state : Type := {
  resume_collection : gmap string stored;
  job_collection : gmap string stored;
  encode_calls : list string
}.

Definition with_resumes (c : gmap string stored) (st : service_state) : service_state :=
  {| resume_collection := c;
     job_collection := job_collection st;
     encode_calls := encode_calls st |}.

Definition with_jobs (c : gmap string stored) (st : service_state) : service_state :=
  {| resume_collection := resume_collection st;
     job_collection := c;
     encode_calls := encode_calls st |}.

Definition called (text : string) (st : service_state) : service_state :=
  {| resume_collection := resume_collection st;
     job_collection := job_collection st;
     encode_calls := (encode_calls st ++ [text])%list |}.

(** [np.zeros(n)] *)
Definition zeros (n : nat) : list float := repeat 0 n.

Definition generate_embedding (M : SentenceTransformer) (text : string)
    (st : service_state) : list float * service_state :=
  let clean_text := Preprocessor.preprocess_text text in
  match clean_text with
  | EmptyString => (zeros (get_sentence_embedding_dimension M), st)
  | _ =>
      match encode M clean_text with
      | Ok embedding => (embedding, called clean_text st)
      | Raise _ => (zeros (get_sentence_embedding_dimension M), called clean_text st)
      end
  end.

(** [np.dot] of two vectors; it raises when their lengths differ. *)
Fixpoint dot (u v : list float) : outcome float :=
  match u, v with
  | [], [] => Ok 0
  | x :: u', y :: v' => s ← dot u' v'; Ok (x * y + s)
  | _, _ => Raise "shapes not aligned"
  end.

(** [np.linalg.norm] *)
Definition norm (u : list float) : float :=
  PrimFloat.sqrt (fold_right (fun x s => x * x + s) 0 u).

(** Python's [min(a, b)] and [max(a, b)]: the first argument unless the
    second compares smaller (greater). *)
Definition py_min (a b : float) : float := if b <? a then b else a.
Definition py_max (a b : float) : float := if a <? b then b else a.

Definition calculate_semantic_similarity (M : SentenceTransformer)
    (text1 text2 : string) (st : service_state) : float * service_state :=
  let '(embedding1, st) := generate_embedding M text1 st in
  let '(embedding2, st) := generate_embedding M text2 st in
  (try_except
     (d ← dot embedding1 embedding2;
      let similarity := d / (norm embedding1 * norm embedding2) in
      let similarity := py_max 0 (py_min 1 ((similarity + 1) / 2)) in
      Ok similarity)
     (fun _ => 0),
   st).

(** The exact value of a binary64 number (0 for an infinity or a NaN). *)
Definition to_Q (x : float) : Q :=
  match Prim2SF x with
  | S754_finite s m e =>
      let v := (inject_Z (Z.pos m) * Qpower 2 e)%Q in
      if s then Qopp v else v
  | _ => 0%Q
  end.

(** The distance of the collections' default space ([l2]): the squared
    Euclidean distance. *)
Fixpoint l2 (u v : list float) : Q :=
  match u, v with
  | x :: u', y :: v' => ((to_Q x - to_Q y) * (to_Q x - to_Q y) + l2 u' v')%Q
  | _, _ => 0%Q
  end.

(** [collection.add].  ChromaDB first checks the arguments and raises for
    a metadata dictionary without entries (Expected metadata to be a
    non-empty dict); then the record is stored under a new id.  [add] does
    not overwrite (that is [upsert], which the service does not call): an
    id that is already present keeps its record.  The other checks of the
    arguments are not part of the model; the vectors of one model have
    one dimension. *)
Definition add (id : string) (rec : stored) (c : gmap string stored)
    : outcome (gmap string stored) :=
  match metadata rec with
  | [] => Raise "Expected metadata to be a non-empty dict"
  | _ :: _ =>
      Ok (match c !! id with
          | Some _ => c
          | None => <[id := rec]> c
          end)
  end.

Fixpoint insert_asc {A : Type} (key : A -> Q) (x : A) (l : list A) : list A :=
  match l with
  | [] => [x]
  | y :: l' =>
      if Qlt_le_dec (key y) (key x) then y :: insert_asc key x l' else x :: l
  end.

(** One record as a query returns it: its id, its distance to the query
    embedding and its metadata. *)
Definition item (query_embedding : list float) (x : string * stored)
    : string * Q * list (string * string) :=
  (fst x, l2 query_embedding (embedding (snd x)), metadata (snd x)).

(** [collection.query] for one query embedding: the [n_results] nearest
    records, nearest first (an exact search; records at equal distance come
    in the order of the insertion below). *)
Definition query (c : gmap string stored) (query_embedding : list float)
    (n_results : nat) : list (string * Q * list (string * string)) :=
  firstn n_results
    (foldr (insert_asc (fun r => snd (fst r))) []
       (map (item query_embedding) (map_to_list c))).

(** The two [store] methods: the whole body is in a [try] block whose
    [except] branch logs the error, so a failed [add] stores nothing.
    [metadata or {}] is the empty dictionary for [None]. *)
Definition store_resume_embedding (M : SentenceTransformer) (resume_id text : string)
    (meta : option (list (string * string))) (st : service_state) : service_state :=
  let '(embedding, st) := generate_embedding M text st in
  try_except
    (c ← add resume_id
           {| embedding := embedding;
              document := String.substring 0 1000 text;
              metadata := default [] meta |}
           (resume_collection st);
     Ok (with_resumes c st))
    (fun _ => st).

Definition store_job_embedding (M : SentenceTransformer) (job_id text : string)
    (meta : option (list (string * string))) (st : service_state) : service_state :=
  let '(embedding, st) := generate_embedding M text st in
  try_except
    (c ← add job_id
           {| embedding := embedding;
              document := String.substring 0 1000 text;
              metadata := default [] meta |}
           (job_collection st);
     Ok (with_jobs c st))
    (fun _ => st).

Record similar : Type := {
  similar_id : string;
  similar_similarity : Q;
  similar_metadata : list (string * string)
}.

Definition find_similar_resumes (M : SentenceTransformer) (job_text : string)
    (n_results : nat) (st : service_state) : list similar * service_state :=
  let '(embedding, st) := generate_embedding M job_text st in
  (map (fun '(resume_id, distance, meta) =>
          {| similar_id := resume_id;
             similar_similarity := (1 - distance)%Q;
             similar_metadata := meta |})
     (query (resume_collection st) embedding n_results),
   st).

Definition find_similar_jobs (M : SentenceTransformer) (resume_text : string)
    (n_results : nat) (st : service_state) : list similar * service_state :=
  let '(embedding, st) := generate_embedding M resume_text st in
  (map (fun '(job_id, distance, meta) =>
          {| similar_id := job_id;
             similar_similarity := (1 - distance)%Q;
             similar_metadata := meta |})
     (query (job_collection st) embedding n_results),
   st).

End Embedding.

(** ** Paths ([os.path] on POSIX) *)

Module Path.

(** [s.rfind(ch)]: the index of the last occurrence, [None] for -1. *)
Fixpoint rfind (ch : ascii) (s : list ascii) : option nat :=
  match s with
  | [] => None
  | c :: s' =>
      match rfind ch s' with
      | Some i => Some (S i)
      | None => if Text.is_char ch c then Some 0%nat else None
      end
  end.

(** [os.path.splitext]: the extension starts at the last dot of the last
    path component, unless only dots come before it in that component. *)
Definition splitext_chars (p : list ascii) : list ascii * list ascii :=
  let filename_index :=
    match rfind "/"%char p with Some sep_index => S sep_index | None => 0%nat end in
  match rfind "."%char p with
  | Some dot_index =>
      if (filename_index <=? dot_index)%nat
         && existsb (fun c => negb (Text.is_char "."%char c))
              (firstn (dot_index - filename_index) (skipn filename_index p))
      then (firstn dot_index p, skipn dot_index p)
      else (p, [])
  | None => (p, [])
  end.

Definition splitext (p : string) : string * string :=
  (string_of_list_ascii (fst (splitext_chars (list_ascii_of_string p))),
   string_of_list_ascii (snd (splitext_chars (list_ascii_of_string p)))).

Definition ends_with_slash (p : string) : bool :=
  match last (list_ascii_of_string p) with
  | Some c => Text.is_char "/"%char c
  | None => false
  end.

(** [os.path.join(a, b)] *)
Definition join (a b : string) : string :=
  if String.prefix "/" b then b
  else if String.eqb a "" || ends_with_slash a then a ++ b
  else a ++ "/" ++ b.

End Path.

(** ** The document parser ([document_parser.py]) *)

Module DocumentParser.

Import Text.

Definition is_kept_punctuation : ascii -> bool :=
  one_of ["."; ","; ";"; ":"; "!"; "?"; "-"; "("; ")"; "["; "]"]%char.

(** [[^\w\s\.\,\;\:\!\?\-\(\)\[\]]] *)
Definition re_special : regex :=
  Class (fun c => negb (is_word c || is_space c || is_kept_punctuation c)).

(** [DocumentParser._clean_text] on the characters of the text. *)
Definition clean_chars (text : list ascii) : list ascii :=
  match text with
  | [] => []
  | _ =>
      let text := re_sub re_spaces [" "%char] text in
      let text := re_sub re_special [" "%char] text in
      let text := join (split text) in
      strip text
  end.

Definition _clean_text (text : string) : string :=
  string_of_list_ascii (clean_chars (list_ascii_of_string text)).

(** What the code reads of a python-docx document: the texts of its
    paragraphs and, for every table, the texts of the cells of its rows. *)
Record docx : Type := {
  paragraphs : list string;
  tables : list (list (list string))
}.

(** The file system and the two readers: [os.path.exists], PyMuPDF's
    [fitz.open] with the texts of the pages, python-docx's [Document].
    A reader may raise. *)
Record Files : Type := {
  file_exists : string -> bool;
  fitz_open : string -> outcome (list string);
  Document : string -> outcome docx
}.

Definition newline : string := String (ascii_of_nat 10) EmptyString.

Definition extract_text_from_pdf (F : Files) (file_path : string) : string :=
  try_except
    (pages ← fitz_open F file_path;
     let text := fold_left (fun text page => text ++ page) pages "" in
     Ok (_clean_text text))
    (fun _ => "").

Definition docx_text (d : docx) : string :=
  let text := fold_left (fun text paragraph => text ++ paragraph ++ newline)
                (paragraphs d) "" in
  fold_left
    (fun text table =>
       fold_left
         (fun text row =>
            fold_left (fun text cell => text ++ cell ++ " ") row text ++ newline)
         table text)
    (tables d) text.

Definition extract_text_from_docx (F : Files) (file_path : string) : string :=
  try_except
    (d ← Document F file_path;
     Ok (_clean_text (docx_text d)))
    (fun _ => "").

Definition extract_text (F : Files) (file_path : string) : string :=
  if negb (file_exists F file_path) then ""
  else
    let file_extension := Preprocessor.lower (snd (Path.splitext file_path)) in
    if String.eqb file_extension ".pdf" then extract_text_from_pdf F file_path
    else if String.eqb file_extension ".docx" then extract_text_from_docx F file_path
    else "".

End DocumentParser.

(** ** The upload checks ([main.py]) *)

Module Upload.

(** What the code reads of an uploaded file; both fields may be [None]. *)
Record UploadFile : Type := {
  filename : option string;
  size : option Z
}.

Inductive error : Type :=
| HTTPException (status_code : Z) (detail : string)
| TypeError.

(** [validate_file] returns [True] or raises.  The limits are those of the
    settings; comparing or splitting [None] raises a [TypeError]. *)
Definition validate_file (max_file_size : Z) (allowed_extensions : list string)
    (file : UploadFile) : error + bool :=
  match size file with
  | None => inl TypeError
  | Some n =>
      if (max_file_size <? n)%Z then inl (HTTPException 413 "File too large")
      else
        match filename file with
        | None => inl TypeError
        | Some name =>
            let file_ext :=
              match Preprocessor.lower (snd (Path.splitext name)) with
              | String _ rest => rest
              | EmptyString => ""
              end in
            if bool_decide (file_ext ∈ allowed_extensions) then inr true
            else inl (HTTPException 400
                        ("Unsupported file type. Allowed: "
                         ++ String.concat ", " allowed_extensions))
        end
  end.

(** The path under which [save_uploaded_file] writes the file;
    [timestamp] is the clock reading, formatted. *)
Definition upload_path (folder timestamp file_name : string) : string :=
  Path.join folder (timestamp ++ "_" ++ file_name).

End Upload.

(** ** The words of the specification *)

Module Spec.

#[local] Open Scope Q_scope.

(** [clamp(x, lo, hi)] *)
Definition clamp (x lo hi : Q) : Q := Qmax lo (Qmin x hi).

(** The list a call returned, none when it raised. *)
Definition returned {A : Type} (c : outcome (list A)) : list A :=
  match c with
  | Ok l => l
  | Raise _ => []
  end.

(** [|matches| / |wanted|], 0 when nothing is wanted. *)
Definition coverage (matches wanted : list string) : Q :=
  match wanted with
  | [] => 0
  | _ => of_nat (length matches) / of_nat (length wanted)
  end.

(** [max(exactSkillCoverage, 0.8 x fuzzySkillCoverage)], 0 when the job
    names no skill. *)
Definition skill_score (skill_matches job_skills : list string)
    (fuzzy : gmap string Preprocessor.fuzzy_match) : Q :=
  match job_skills with
  | [] => 0
  | _ =>
      Qmax (of_nat (length skill_matches) / of_nat (length job_skills))
        (0.8 * (Matching.sum_similarity fuzzy / of_nat (length job_skills)))
  end.

(** The text after the punctuation step of [preprocess_text]. *)
Definition punctuated (text : list ascii) : list ascii :=
  Text.re_sub Text.re_punct [" "%char]
    (Text.re_sub Text.re_phone []
       (Text.re_sub Text.re_email []
          (Text.re_sub Text.re_url []
             (Text.re_sub Text.re_spaces [" "%char] (Text.lower text))))).

(** A word between two spaces: not empty, no white space in it, and every
    character satisfies [P]. *)
Definition clean_word (P : ascii -> Prop) (w : list ascii) : Prop :=
  w <> [] /\ Forall (fun c => Text.is_space c = false /\ P c) w.

(** A word of normalised text: word characters, none in upper case. *)
Definition normal_word (w : list ascii) : Prop :=
  w <> [] /\ Forall (fun c => Text.is_word c = true /\ Text.is_upper c = false) w.

(** A text of ASCII characters. *)
Definition ascii_text (text : string) : Prop :=
  Forall (fun c => Text.is_ascii c = true) (list_ascii_of_string text).


(** A character that [_clean_text] keeps inside a word. *)
Definition kept (c : ascii) : Prop :=
  Text.is_word c || DocumentParser.is_kept_punctuation c = true.

(** What the batch returns for one candidate. *)
Definition batch_entry (E : Matching.MatchingEngine) (job_text : string)
    (r : Matching.resume) : Matching.batch_result :=
  {| Matching.match_results :=
       Matching.calculate_combined_score E
         (default "" (Matching.resume_text_field r)) job_text;
     Matching.resume_id := default "" (Matching.resume_id_field r);
     Matching.resume_metadata := default [] (Matching.resume_metadata_field r) |}.

(** The key of the final sort. *)
Definition score (x : Matching.batch_result) : Q :=
  Matching.combined_score (Matching.match_results x).

(** A list in decreasing order of [key]. *)
Definition descending {A : Type} (key : A -> Q) (l : list A) : Prop :=
  StronglySorted (fun a b => key b <= key a) l.


(** A list in increasing order of [key]. *)
Definition ascending {A : Type} (key : A -> Q) (l : list A) : Prop :=
  StronglySorted (fun a b => key a <= key b) l.

(** One row of a query as the service returns it. *)
Definition as_similar (x : string * Q * list (string * string)) : Embedding.similar :=
  {| Embedding.similar_id := fst (fst x);
     Embedding.similar_similarity := 1 - snd (fst x);
     Embedding.similar_metadata := snd x |}.

(** The skills that [extract_technical_skills] looks for. *)
Definition vocabulary : list string := flat_map snd Preprocessor.technical_skills.

(** A contextual match as the engine reports it: the best resume sentence
    for one of the job sentences, with a similarity above 0.3. *)
Definition aligned (E : Matching.MatchingEngine)
    (job_sentences resume_sentences : list string) (m : Matching.sentence_match)
    : Prop :=
  0.3 < Matching.sentence_similarity m
  /\ Matching.job_sentence m ∈ job_sentences
  /\ Matching.resume_sentence m ∈ resume_sentences
  /\ Matching.sentence_similarity m
     = Matching.calculate_semantic_similarity E
         (Matching.job_sentence m) (Matching.resume_sentence m)
  /\ forall s, s ∈ resume_sentences ->
       Matching.calculate_semantic_similarity E (Matching.job_sentence m) s
       <= Matching.sentence_similarity m.
End Spec.

(** ** Collaborators for the examples

    Small instances of the interfaces, on which the definitions above
    evaluate. *)

Module Examples.

Import Preprocessor Matching.

(** A scorer that gives 100 to equal strings and 0 to different ones. *)
Definition equal_ratio (a b : string) : Z :=
  if String.eqb a b then 100%Z else 0%Z.

(** No spaCy model installed. *)
Definition plain : TextPreprocessor :=
  {| nlp := None; token_sort_ratio := equal_ratio |}.

Definition empty_doc : doc :=
  {| ents := []; noun_chunks := []; tokens := []; sents := [] |}.

(** A spaCy pipeline that refuses long texts, as spaCy does beyond its
    [max_length]; here the limit is 20 characters. *)
Definition limited : TextPreprocessor :=
  {| nlp := Some (fun text => if (20 <? String.length text)%nat
                              then Raise "ValueError" else Ok empty_doc);
     token_sort_ratio := equal_ratio |}.

(** A spaCy pipeline that raises on the text [crash]. *)
Definition fragile : TextPreprocessor :=
  {| nlp := Some (fun text => if String.eqb text "crash"
                              then Raise "ValueError" else Ok empty_doc);
     token_sort_ratio := equal_ratio |}.

Definition no_openai : OpenAIService :=
  {| openai_is_available := false;
     analyze_resume_job_match := fun _ _ => Raise "not configured";
     generate_improvement_suggestions := fun _ _ _ => Raise "not configured" |}.

Definition no_huggingface : HuggingFaceService :=
  {| huggingface_is_available := false;
     analyze_job_resume_compatibility := fun _ _ => Raise "not configured" |}.

(** An engine with the default weights whose embedding service answers
    0.9 for the resume [python] and 0.5 for any other. *)
Definition engine (P : TextPreprocessor) : MatchingEngine :=
  {| preprocessor := P;
     calculate_semantic_similarity :=
       fun resume_text _ => if String.eqb resume_text "python" then 0.9%Q else 0.5%Q;
     openai_service := no_openai;
     huggingface_service := no_huggingface;
     hard_match_weight := Settings.hard_match_weight;
     semantic_match_weight := Settings.semantic_match_weight |}.

(** An engine configured with the weights 2 and -1. *)
Definition skewed : MatchingEngine :=
  {| preprocessor := plain;
     calculate_semantic_similarity := fun _ _ => 0.5%Q;
     openai_service := no_openai;
     huggingface_service := no_huggingface;
     hard_match_weight := 2;
     semantic_match_weight := (-1)%Q |}.

Definition candidate (id text : string) : resume :=
  {| resume_text_field := Some text;
     resume_id_field := Some id;
     resume_metadata_field := None |}.


(** Id, reduced score and tier of a batch result. *)
Definition summary (x : batch_result) : string * Q * suitability_tier :=
  (resume_id x, Qred (combined_score (match_results x)), suitability (match_results x)).

(** A model of dimension 3 with two distinct embeddings. *)
Definition model : Embedding.SentenceTransformer :=
  {| Embedding.get_sentence_embedding_dimension := 3;
     Embedding.encode :=
       fun text => Ok (if String.eqb text "a"
                       then [1; 0; 0.5]%float else [0; 2; 0]%float) |}.

(** The metadata the upload route stores with a resume. *)
Definition meta_of (id : string) : option (list (string * string)) :=
  Some [("resume_id", id)].

Definition fresh : Embedding.service_state :=
  {| Embedding.resume_collection := ∅;
     Embedding.job_collection := ∅;
     Embedding.encode_calls := [] |}.

(** An OpenAI service that is configured and whose calls time out. *)
Definition available_but_failing : OpenAIService :=
  {| openai_is_available := true;
     analyze_resume_job_match := fun _ _ => Raise "timeout";
     generate_improvement_suggestions := fun _ _ _ => Raise "timeout" |}.

(** A model whose vectors differ in length. *)
Definition uneven : Embedding.SentenceTransformer :=
  {| Embedding.get_sentence_embedding_dimension := 2;
     Embedding.encode :=
       fun text => Ok (if String.eqb text "a" then [1]%float else [0; 2]%float) |}.

(** Metrics that compare for equality. *)
Definition exact_distance : TextDistance :=
  {| jaccard := fun a b => if bool_decide (a = b) then 1%Q else 0%Q;
     cosine := fun a b => if bool_decide (a = b) then 1%Q else 0%Q;
     jaro_winkler := fun a b => if String.eqb a b then 1%Q else 0%Q |}.

(** A file system with one PDF of two pages. *)
Definition disk : DocumentParser.Files :=
  {| DocumentParser.file_exists :=
       fun p => String.eqb p "uploads/resumes/20240101_120000_cv.PDF";
     DocumentParser.fitz_open := fun _ => Ok ["Jane  Doe "; "C++ & Rust"];
     DocumentParser.Document := fun _ => Raise "not a zip file" |}.

End Examples.

(** * Properties

    ** Numbers *)

Section Numbers.

#[local] Open Scope Q_scope.

Lemma py_max_Qmax (a b : Q) : py_max a b == Qmax a b.
Proof.
  unfold py_max. destruct (Qlt_le_dec a b) as [H | H].
  - symmetry. apply Q.max_r. lra.
  - symmetry. apply Q.max_l. exact H.
Qed.

Lemma py_min_Qmin (a b : Q) : py_min a b == Qmin a b.
Proof.
  unfold py_min. destruct (Qlt_le_dec b a) as [H | H].
  - symmetry. apply Q.min_r. lra.
  - symmetry. apply Q.min_l. exact H.
Qed.

Lemma of_nat_nonneg (n : nat) : 0 <= of_nat n.
Proof.
  unfold of_nat. change 0 with (inject_Z 0). rewrite <- Zle_Qle. lia.
Qed.

Lemma ratio_nonneg (n m : nat) : 0 <= of_nat n / of_nat m.
Proof.
  pose proof (of_nat_nonneg n) as Hn. pose proof (of_nat_nonneg m) as Hm.
  destruct (Qeq_dec (of_nat m) 0) as [E | E].
  - unfold Qdiv. rewrite E. unfold Qinv; simpl. lra.
  - apply Qle_shift_div_l; lra.
Qed.

Lemma clamp_nonneg (x : Q) : 0 <= x -> py_min 1 x == Spec.clamp x 0 1.
Proof.
  intros H. unfold Spec.clamp. rewrite py_min_Qmin.
  rewrite (Q.min_comm 1 x).
  symmetry. apply Q.max_r. apply Q.min_glb; lra.
Qed.

End Numbers.

(** ** The hard-match score *)

Section HardMatch.

Import Preprocessor Matching.
#[local] Open Scope Q_scope.

Variable E : MatchingEngine.

Lemma skill_score_nonneg (resume_text job_text : string) :
  0 <= skill_score (calculate_hard_match_score E resume_text job_text)
  /\ 0 <= keyword_score (calculate_hard_match_score E resume_text job_text)
  /\ 0 <= cert_score (calculate_hard_match_score E resume_text job_text).
Proof.
  unfold calculate_hard_match_score, hard_match_body.
  destruct (extract_keywords (preprocessor E) resume_text 2) as [rk | e]; simpl;
    [| split; [| split]; lra].
  destruct (extract_keywords (preprocessor E) job_text 2) as [jk | e]; simpl;
    [| split; [| split]; lra].
  split; [| split].
  - destruct (extract_technical_skills job_text); [lra |].
    rewrite py_max_Qmax. eapply Qle_trans; [apply ratio_nonneg | apply Q.le_max_l].
  - destruct jk; [lra | apply ratio_nonneg].
  - destruct (extract_certifications job_text); [lra | apply ratio_nonneg].
Qed.

Lemma hard_match_score_is_clamp (resume_text job_text : string) :
  let r := calculate_hard_match_score E resume_text job_text in
  hard_match_score r
    == Spec.clamp (skill_score r * 0.6 + keyword_score r * 0.3 + cert_score r * 0.1) 0 1.
Proof.
  intros r.
  destruct (skill_score_nonneg resume_text job_text) as (Hs & Hk & Hc).
  fold r in Hs, Hk, Hc. revert Hs Hk Hc. subst r.
  unfold calculate_hard_match_score, hard_match_body.
  destruct (extract_keywords (preprocessor E) resume_text 2) as [rk | e]; simpl.
  - destruct (extract_keywords (preprocessor E) job_text 2) as [jk | e]; simpl.
    + intros Hs Hk Hc. apply clamp_nonneg. nra.
    + intros _ _ _. unfold Spec.clamp. reflexivity.
  - intros _ _ _. reflexivity.
Qed.

Lemma nothing_matched (wanted : list string) :
  0 == Spec.skill_score [] wanted ∅ /\ 0 == Spec.coverage [] wanted.
Proof.
  split.
  - destruct wanted; simpl; [reflexivity |].
    unfold Qdiv. rewrite !Qmult_0_l, Qmult_0_r. rewrite Q.max_id. reflexivity.
  - destruct wanted; simpl; [reflexivity |].
    unfold Qdiv. rewrite Qmult_0_l. reflexivity.
Qed.

(** What the result holds when both keyword extractions return: the
    matches are the intersections of what the two texts contain, the fuzzy
    matches are those of the job skills against the resume skills, and
    the sub-scores are the coverages of the job's side. *)
Lemma hard_match_of_texts (resume_text job_text : string)
    (resume_keywords job_keywords : list string) :
  extract_keywords (preprocessor E) resume_text 2 = Ok resume_keywords ->
  extract_keywords (preprocessor E) job_text 2 = Ok job_keywords ->
  let r := calculate_hard_match_score E resume_text job_text in
  let resume_skills := extract_technical_skills resume_text in
  let job_skills := extract_technical_skills job_text in
  let resume_certs := extract_certifications resume_text in
  let job_certs := extract_certifications job_text in
  (NoDup (skill_matches r)
   /\ forall s, s ∈ skill_matches r <-> s ∈ resume_skills /\ s ∈ job_skills)
  /\ (NoDup (keyword_matches r)
      /\ forall k, k ∈ keyword_matches r <-> k ∈ resume_keywords /\ k ∈ job_keywords)
  /\ (NoDup (cert_matches r)
      /\ forall c, c ∈ cert_matches r <-> c ∈ resume_certs /\ c ∈ job_certs)
  /\ fuzzy_skill_matches r
     = fuzzy_match_skills (preprocessor E) resume_skills job_skills 75
  /\ skill_score r
     == Spec.skill_score (skill_matches r) job_skills (fuzzy_skill_matches r)
  /\ keyword_score r == Spec.coverage (keyword_matches r) job_keywords
  /\ cert_score r == Spec.coverage (cert_matches r) job_certs.
Proof.
  intros Hr Hj. cbv zeta.
  unfold calculate_hard_match_score, hard_match_body. rewrite Hr, Hj.
  cbn [mbind outcome_bind try_except skill_matches keyword_matches cert_matches
       fuzzy_skill_matches skill_score keyword_score cert_score].
  assert (Hset : forall a b : list string,
             NoDup (elements (set_of a ∩ set_of b))
             /\ forall x, x ∈ elements (set_of a ∩ set_of b) <-> x ∈ a /\ x ∈ b).
  { intros a b. split; [apply NoDup_elements |]. intros x.
    rewrite elem_of_elements, elem_of_intersection. unfold set_of.
    rewrite !elem_of_list_to_set. reflexivity. }
  split; [apply Hset |]. split; [apply Hset |]. split; [apply Hset |].
  split; [reflexivity |]. split; [| split].
  - destruct (extract_technical_skills job_text) as [| s l]; [reflexivity |].
    cbn [Spec.skill_score]. rewrite py_max_Qmax.
    apply Q.max_compat; [reflexivity | ring].
  - destruct job_keywords; reflexivity.
  - destruct (extract_certifications job_text); reflexivity.
Qed.

Lemma hard_match_of_failure (resume_text job_text e : string) :
  extract_keywords (preprocessor E) resume_text 2 = Raise e
  \/ extract_keywords (preprocessor E) job_text 2 = Raise e ->
  calculate_hard_match_score E resume_text job_text = hard_match_failed.
Proof.
  unfold calculate_hard_match_score, hard_match_body. intros [H | H].
  - rewrite H. reflexivity.
  - rewrite H. destruct (extract_keywords (preprocessor E) resume_text 2); reflexivity.
Qed.

(** C1, amended.  For every pair of texts the hard-match score is the
    weighted sum 0.6 x skill + 0.3 x keyword + 0.1 x certification clamped
    to [0,1], and a sub-score is 0 when the job names no skill, no keyword,
    no certification.  When keyword extraction returns for both texts, the
    exact matches are the skills (keywords, certifications) that both
    texts contain, the skill score is the greater of the exact coverage
    |skill matches| / |job skills| and 0.8 times the fuzzy coverage (sum of
    the fuzzy similarities of the job skills against the resume skills)
    / |job skills|, and the keyword and certification scores are the
    coverages |matches| / |wanted|.  When keyword extraction raises for one
    of the texts, the result is the failure record: every score is 0 and
    every list is empty, whatever the texts share. *)
Theorem hard_match_score_formula (resume_text job_text : string) :
  let r := calculate_hard_match_score E resume_text job_text in
  let resume_skills := extract_technical_skills resume_text in
  let job_skills := extract_technical_skills job_text in
  let resume_certs := extract_certifications resume_text in
  let job_certs := extract_certifications job_text in
  hard_match_score r
    == Spec.clamp (skill_score r * 0.6 + keyword_score r * 0.3 + cert_score r * 0.1) 0 1
  /\ (job_skills = [] -> skill_score r == 0)
  /\ (job_certs = [] -> cert_score r == 0)
  /\ (extract_keywords (preprocessor E) job_text 2 = Ok [] -> keyword_score r == 0)
  /\ (forall resume_keywords job_keywords,
        extract_keywords (preprocessor E) resume_text 2 = Ok resume_keywords ->
        extract_keywords (preprocessor E) job_text 2 = Ok job_keywords ->
        (NoDup (skill_matches r)
         /\ forall s, s ∈ skill_matches r <-> s ∈ resume_skills /\ s ∈ job_skills)
        /\ (NoDup (keyword_matches r)
            /\ forall k, k ∈ keyword_matches r
                         <-> k ∈ resume_keywords /\ k ∈ job_keywords)
        /\ (NoDup (cert_matches r)
            /\ forall c, c ∈ cert_matches r <-> c ∈ resume_certs /\ c ∈ job_certs)
        /\ fuzzy_skill_matches r
           = fuzzy_match_skills (preprocessor E) resume_skills job_skills 75
        /\ skill_score r
           == Spec.skill_score (skill_matches r) job_skills (fuzzy_skill_matches r)
        /\ keyword_score r == Spec.coverage (keyword_matches r) job_keywords
        /\ cert_score r == Spec.coverage (cert_matches r) job_certs)
  /\ (forall e,
        extract_keywords (preprocessor E) resume_text 2 = Raise e
        \/ extract_keywords (preprocessor E) job_text 2 = Raise e ->
        r = hard_match_failed).
Proof.
  cbv zeta. split; [apply hard_match_score_is_clamp |].
  split; [| split; [| split; [| split]]].
  - intros Hnil. unfold calculate_hard_match_score, hard_match_body.
    destruct (extract_keywords (preprocessor E) resume_text 2) as [rk | e];
      [| reflexivity].
    destruct (extract_keywords (preprocessor E) job_text 2) as [jk | e];
      [| reflexivity].
    cbn [mbind outcome_bind try_except skill_score]. rewrite Hnil. reflexivity.
  - intros Hnil. unfold calculate_hard_match_score, hard_match_body.
    destruct (extract_keywords (preprocessor E) resume_text 2) as [rk | e];
      [| reflexivity].
    destruct (extract_keywords (preprocessor E) job_text 2) as [jk | e];
      [| reflexivity].
    cbn [mbind outcome_bind try_except cert_score]. rewrite Hnil. reflexivity.
  - intros Hnil. unfold calculate_hard_match_score, hard_match_body. rewrite Hnil.
    destruct (extract_keywords (preprocessor E) resume_text 2) as [rk | e];
      reflexivity.
  - intros rk jk Hr Hj. apply (hard_match_of_texts resume_text job_text rk jk Hr Hj).
  - intros e H. apply (hard_match_of_failure resume_text job_text e H).
Qed.

End HardMatch.

Section HardMatchExamples.

Import Preprocessor Matching Examples.
#[local] Open Scope Q_scope.

Lemma hard_match_score_formula_witness :
  skill_score (calculate_hard_match_score (engine plain) "python, azure" "python, aws")
  == Spec.skill_score
       (skill_matches (calculate_hard_match_score (engine plain)
                         "python, azure" "python, aws"))
       (extract_technical_skills "python, aws")
       (fuzzy_skill_matches (calculate_hard_match_score (engine plain)
                               "python, azure" "python, aws")).
Proof.
  destruct (hard_match_score_formula (engine plain) "python, azure" "python, aws")
    as (_ & _ & _ & _ & H & _).
  assert (Hr : extract_keywords (preprocessor (engine plain)) "python, azure" 2
               = Ok (elements (list_to_set (C := gset string) ["python"; "azure"])))
    by (vm_compute; reflexivity).
  assert (Hj : extract_keywords (preprocessor (engine plain)) "python, aws" 2
               = Ok (elements (list_to_set (C := gset string) ["python"; "aws"])))
    by (vm_compute; reflexivity).
  destruct (H _ _ Hr Hj) as (_ & _ & _ & _ & Hs & _). exact Hs.
Defined.

(** C1 as stated fails: both texts name the skill [python], the exact
    coverage of the job's skills is 1, and since spaCy refuses the long
    resume every score is 0. *)
Lemma failed_extraction_scores_zero :
  let resume_text := "Python and nothing else but Python" in
  let r := calculate_hard_match_score (engine limited) resume_text "python" in
  extract_keywords limited resume_text 2 = Raise "ValueError"
  /\ extract_technical_skills resume_text = ["python"]
  /\ extract_technical_skills "python" = ["python"]
  /\ Spec.coverage ["python"] (extract_technical_skills "python") == 1
  /\ skill_matches r = []
  /\ skill_score r == 0
  /\ hard_match_score r == 0.
Proof. vm_compute. repeat split; reflexivity. Qed.

End HardMatchExamples.

(** ** Fusion and classification *)

Section Fusion.

Import Preprocessor Matching.
#[local] Open Scope Q_scope.

Variable E : MatchingEngine.

Lemma hard_match_score_in_range (resume_text job_text : string) :
  0 <= hard_match_score (calculate_hard_match_score E resume_text job_text) <= 1.
Proof.
  pose proof (hard_match_score_is_clamp E resume_text job_text) as H.
  cbv zeta in H. rewrite H. unfold Spec.clamp. split.
  - apply Q.le_max_l.
  - apply Q.max_lub; [lra | apply Q.le_min_r].
Qed.

Lemma classify_spec (c : Q) :
  (classify c = High <-> 0.7 <= c)
  /\ (classify c = Medium <-> 0.4 <= c /\ c < 0.7)
  /\ (classify c = Low <-> c < 0.4).
Proof.
  unfold classify.
  destruct (Qle_bool 0.7 c) eqn:H7; [apply Qle_bool_iff in H7 |];
    [| destruct (Qle_bool 0.4 c) eqn:H4; [apply Qle_bool_iff in H4 |]].
  - repeat split; try discriminate; intros; try lra.
  - assert (~ 0.7 <= c) by (rewrite <- Qle_bool_iff; congruence).
    repeat split; try discriminate; intros; try lra.
  - assert (~ 0.7 <= c) by (rewrite <- Qle_bool_iff; congruence).
    assert (~ 0.4 <= c) by (rewrite <- Qle_bool_iff; congruence).
    repeat split; try discriminate; intros; try lra.
Qed.


(** C2, amended.  The combined score is hard x hard weight + semantic x
    semantic weight; the default weights are 0.4 and 0.6, which sum to 1;
    and whenever both sub-scores lie in [0,1] and the weights are
    non-negative and sum to 1, the combined score lies in [0,1]. *)
Theorem combined_score_in_range (resume_text job_text : string) :
  let r := calculate_combined_score E resume_text job_text in
  let h := hard_match_score (calculate_hard_match_score E resume_text job_text) in
  let s := semantic_match_score (calculate_semantic_match_score E resume_text job_text) in
  combined_score r == h * hard_match_weight E + s * semantic_match_weight E
  /\ Settings.hard_match_weight == 0.4
  /\ Settings.semantic_match_weight == 0.6
  /\ Settings.hard_match_weight + Settings.semantic_match_weight == 1
  /\ (0 <= hard_match_weight E -> 0 <= semantic_match_weight E ->
      hard_match_weight E + semantic_match_weight E == 1 ->
      0 <= h <= 1 -> 0 <= s <= 1 ->
      0 <= combined_score r <= 1).
Proof.
  cbv zeta. unfold calculate_combined_score, combined_body.
  cbn [try_except combined_score].
  split; [reflexivity |]. split; [reflexivity |]. split; [reflexivity |].
  split; [reflexivity |].
  intros Hh Hs Hsum Hhr Hsr. nra.
Qed.

End Fusion.

Section FusionExamples.

Import Preprocessor Matching Examples.
#[local] Open Scope Q_scope.

Lemma combined_score_in_range_witness :
  0 <= combined_score (calculate_combined_score (engine plain) "python" "python") <= 1.
Proof.
  apply (combined_score_in_range (engine plain) "python" "python").
  - vm_compute; discriminate.
  - vm_compute; discriminate.
  - reflexivity.
  - apply hard_match_score_in_range.
  - vm_compute. split; discriminate.
Defined.

(** C2 as stated fails: the weights 2 and -1 sum to 1, both sub-scores
    lie in [0,1], and the combined score is negative. *)
Lemma skewed_weights_leave_range :
  hard_match_weight skewed + semantic_match_weight skewed == 1
  /\ 0 <= hard_match_score (calculate_hard_match_score skewed "" "") <= 1
  /\ 0 <= semantic_match_score (calculate_semantic_match_score skewed "" "") <= 1
  /\ combined_score (calculate_combined_score skewed "" "") < 0.
Proof.
  vm_compute. repeat split; try discriminate.
Qed.

End FusionExamples.

(** ** The fuzzy matcher *)

Section MaxBy.

Context {A : Type} (key : A -> Z).

Lemma max_by_elem (best : A) (l : list A) : max_by key best l ∈ best :: l.
Proof.
  revert best. induction l as [| x l IH]; intros best; simpl.
  - apply list_elem_of_here.
  - specialize (IH (if (key best <? key x)%Z then x else best)).
    apply elem_of_cons in IH as [IH | IH].
    + rewrite IH. destruct (key best <? key x)%Z.
      * apply list_elem_of_further, list_elem_of_here.
      * apply list_elem_of_here.
    + apply list_elem_of_further, list_elem_of_further. exact IH.
Qed.

Lemma max_by_start (best : A) (l : list A) :
  (key best <= key (max_by key best l))%Z.
Proof.
  revert best. induction l as [| x l IH]; intros best; simpl; [lia |].
  specialize (IH (if (key best <? key x)%Z then x else best)).
  destruct (key best <? key x)%Z eqn:H; [apply Z.ltb_lt in H |]; lia.
Qed.

Lemma max_by_greatest (best : A) (l : list A) (x : A) :
  x ∈ best :: l -> (key x <= key (max_by key best l))%Z.
Proof.
  revert best. induction l as [| y l IH]; intros best Hx; simpl.
  - apply list_elem_of_singleton in Hx. subst. lia.
  - set (best' := if (key best <? key y)%Z then y else best).
    assert (Hb : (key best <= key best' /\ key y <= key best')%Z).
    { subst best'. destruct (key best <? key y)%Z eqn:Hlt;
        [apply Z.ltb_lt in Hlt | apply Z.ltb_ge in Hlt]; lia. }
    pose proof (max_by_start best' l) as Hs.
    apply elem_of_cons in Hx as [Hx | Hx]; [subst x; lia |].
    apply elem_of_cons in Hx as [Hx | Hx]; [subst x; lia |].
    apply IH. apply list_elem_of_further. exact Hx.
Qed.

End MaxBy.

Section Fuzzy.

Import Preprocessor.

Variable P : TextPreprocessor.

Lemma extractOne_spec (query : string) (choices : list string) :
  match extractOne (token_sort_ratio P) query choices with
  | None => choices = []
  | Some (choice, score) =>
      choice ∈ choices
      /\ score = token_sort_ratio P query choice
      /\ forall c, c ∈ choices -> (token_sort_ratio P query c <= score)%Z
  end.
Proof.
  unfold extractOne. destruct choices as [| c0 cs]; [reflexivity |].
  cbn [map].
  set (pair_of := fun choice => (choice, token_sort_ratio P query choice)).
  change (c0, token_sort_ratio P query c0) with (pair_of c0).
  change (map _ cs) with (map pair_of cs).
  pose proof (max_by_elem snd (pair_of c0) (map pair_of cs)) as Hin.
  pose proof (max_by_greatest snd (pair_of c0) (map pair_of cs)) as Hmax.
  destruct (max_by snd (pair_of c0) (map pair_of cs)) as [choice score].
  change (pair_of c0 :: map pair_of cs) with (map pair_of (c0 :: cs)) in *.
  apply list_elem_of_In, in_map_iff in Hin as (c & Heq & Hc).
  unfold pair_of in Heq. injection Heq as <- <-.
  split; [apply list_elem_of_In; exact Hc |]. split; [reflexivity |].
  intros c' Hc'. apply (Hmax (pair_of c')).
  apply list_elem_of_In, in_map. apply list_elem_of_In. exact Hc'.
Qed.

Lemma fuzzy_loop_lookup (resume_skills job_skills : list string) (threshold : Z)
    (matches : gmap string fuzzy_match) (job_skill : string) :
  foldl (fun matches job_skill =>
           match kept_match P resume_skills threshold job_skill with
           | Some m => <[job_skill := m]> matches
           | None => matches
           end) matches job_skills !! job_skill
  = if decide (job_skill ∈ job_skills)
    then match kept_match P resume_skills threshold job_skill with
         | Some m => Some m
         | None => matches !! job_skill
         end
    else matches !! job_skill.
Proof.
  revert matches. induction job_skills as [| j js IH]; intros matches.
  - cbn [foldl]. rewrite decide_False; [reflexivity | apply not_elem_of_nil].
  - cbn [foldl]. rewrite IH. clear IH.
    destruct (decide (job_skill = j)) as [-> | Hne].
    + rewrite (decide_True (P := j ∈ j :: js)) by apply list_elem_of_here.
      destruct (kept_match P resume_skills threshold j) as [m |].
      * destruct (decide (j ∈ js)); [reflexivity | apply lookup_insert_eq].
      * destruct (decide (j ∈ js)); reflexivity.
    + assert (Hsame : match kept_match P resume_skills threshold j with
                      | Some m => <[j := m]> matches
                      | None => matches
                      end !! job_skill = matches !! job_skill).
      { destruct (kept_match P resume_skills threshold j); [| reflexivity].
        apply lookup_insert_ne. congruence. }
      rewrite Hsame.
      destruct (decide (job_skill ∈ js)) as [Hin | Hnin].
      * rewrite (decide_True (P := job_skill ∈ j :: js))
          by (apply list_elem_of_further; exact Hin).
        reflexivity.
      * rewrite (decide_False (P := job_skill ∈ j :: js)); [reflexivity |].
        rewrite elem_of_cons. tauto.
Qed.

Lemma fuzzy_match_skills_lookup (resume_skills job_skills : list string)
    (threshold : Z) (job_skill : string) :
  fuzzy_match_skills P resume_skills job_skills threshold !! job_skill
  = if decide (job_skill ∈ job_skills)
    then kept_match P resume_skills threshold job_skill
    else None.
Proof.
  unfold fuzzy_match_skills. rewrite fuzzy_loop_lookup.
  rewrite lookup_empty.
  destruct (decide (job_skill ∈ job_skills)); [| reflexivity].
  destruct (kept_match P resume_skills threshold job_skill); reflexivity.
Qed.

Lemma fuzzy_lookup_spec (resume_skills job_skills : list string)
    (threshold : Z) (job_skill : string) :
  let matches := fuzzy_match_skills P resume_skills job_skills threshold in
  let score := token_sort_ratio P job_skill in
  (forall m, matches !! job_skill = Some m ->
     job_skill ∈ job_skills
     /\ matched_skill m ∈ resume_skills
     /\ (forall c, c ∈ resume_skills -> (score c <= score (matched_skill m))%Z)
     /\ (threshold <= score (matched_skill m))%Z
     /\ similarity m = (inject_Z (score (matched_skill m)) / 100)%Q)
  /\ (job_skill ∈ job_skills ->
      forall c, c ∈ resume_skills -> (threshold <= score c)%Z ->
      is_Some (matches !! job_skill))
  /\ ((forall c, c ∈ resume_skills -> (score c < threshold)%Z) ->
      matches !! job_skill = None)
  /\ (job_skill ∉ job_skills -> matches !! job_skill = None).
Proof.
  intros matches score. subst matches.
  rewrite fuzzy_match_skills_lookup. unfold kept_match.
  pose proof (extractOne_spec job_skill resume_skills) as Hbest.
  destruct (extractOne (token_sort_ratio P) job_skill resume_skills)
    as [[choice sc] |]; cbn [fst snd].
  - destruct Hbest as (Hc & -> & Hmax). fold score in Hmax |- *.
    split; [| split; [| split]].
    + intros m Hm. destruct (decide (job_skill ∈ job_skills)); [| discriminate].
      destruct (threshold <=? score choice)%Z eqn:Hth; [| discriminate].
      apply Z.leb_le in Hth. injection Hm as <-. cbn [matched_skill similarity].
      auto.
    + intros Hj c Hcin Hcth. rewrite decide_True by exact Hj.
      specialize (Hmax c Hcin).
      destruct (threshold <=? score choice)%Z eqn:Hth; [eauto |].
      apply Z.leb_gt in Hth. lia.
    + intros Hlow. specialize (Hlow choice Hc).
      destruct (decide (job_skill ∈ job_skills)); [| reflexivity].
      destruct (threshold <=? score choice)%Z eqn:Hth; [| reflexivity].
      apply Z.leb_le in Hth. lia.
    + intros Hj. rewrite decide_False by exact Hj. reflexivity.
  - subst resume_skills.
    split; [| split; [| split]].
    + intros m Hm. destruct (decide (job_skill ∈ job_skills)); discriminate.
    + intros _ c Hc. apply not_elem_of_nil in Hc. contradiction.
    + intros _. destruct (decide (job_skill ∈ job_skills)); reflexivity.
    + intros Hj. rewrite decide_False by exact Hj. reflexivity.
Qed.

Lemma fuzzy_loop_size (resume_skills job_skills : list string) (threshold : Z)
    (matches : gmap string fuzzy_match) :
  size (foldl (fun matches job_skill =>
                 match kept_match P resume_skills threshold job_skill with
                 | Some m => <[job_skill := m]> matches
                 | None => matches
                 end) matches job_skills)
  <= size matches + length job_skills.
Proof.
  revert matches. induction job_skills as [| j js IH]; intros matches.
  - cbn [foldl length]. lia.
  - cbn [foldl length]. etransitivity; [apply IH |].
    destruct (kept_match P resume_skills threshold j) as [m |]; [| lia].
    rewrite map_size_insert. destruct (matches !! j); simpl; lia.
Qed.

(** C4.  For every candidate skill list, job skill list and threshold the
    mapping of [fuzzy_match_skills] has at most one entry per job skill: an
    entry is the best-scoring candidate skill under the token-sort scorer,
    present exactly when that best score (0..100) reaches the threshold,
    with the similarity stored as the score divided by 100; a job skill for
    which no candidate reaches the threshold has no entry, nor has any key
    that is not a job skill. *)
Theorem fuzzy_match_skills_best (resume_skills job_skills : list string)
    (threshold : Z) (job_skill : string) :
  let matches := fuzzy_match_skills P resume_skills job_skills threshold in
  let score := token_sort_ratio P job_skill in
  size matches <= length job_skills
  /\ (forall m, matches !! job_skill = Some m ->
       job_skill ∈ job_skills
       /\ matched_skill m ∈ resume_skills
       /\ (forall c, c ∈ resume_skills -> (score c <= score (matched_skill m))%Z)
       /\ (threshold <= score (matched_skill m))%Z
       /\ similarity m = (inject_Z (score (matched_skill m)) / 100)%Q)
  /\ (job_skill ∈ job_skills ->
      forall c, c ∈ resume_skills -> (threshold <= score c)%Z ->
      is_Some (matches !! job_skill))
  /\ ((forall c, c ∈ resume_skills -> (score c < threshold)%Z) ->
      matches !! job_skill = None)
  /\ (job_skill ∉ job_skills -> matches !! job_skill = None).
Proof.
  cbv zeta. split.
  - unfold fuzzy_match_skills.
    pose proof (fuzzy_loop_size resume_skills job_skills threshold ∅) as H.
    rewrite map_size_empty in H. exact H.
  - apply fuzzy_lookup_spec.
Qed.

End Fuzzy.

Section FuzzyExamples.

Import Preprocessor Matching Examples.

Lemma fuzzy_match_skills_best_witness :
  is_Some (fuzzy_match_skills plain ["java"; "python"] ["python"; "go"] 75 !! "python").
Proof.
  destruct (fuzzy_match_skills_best plain ["java"; "python"] ["python"; "go"] 75 "python")
    as (_ & _ & H & _).
  apply H with (c := "python").
  - apply list_elem_of_here.
  - apply list_elem_of_further, list_elem_of_here.
  - vm_compute. discriminate.
Defined.

End FuzzyExamples.

(** ** Exact, fuzzy and missing skills *)

Section Skills.

Import Preprocessor Matching.

Variable E : MatchingEngine.

(** On the path without an exception the result lists the exact matches,
    the fuzzy matches over all the job skills and the missing skills. *)
Lemma hard_match_returned (resume_text job_text : string) (rk jk : list string) :
  extract_keywords (preprocessor E) resume_text 2 = Ok rk ->
  extract_keywords (preprocessor E) job_text 2 = Ok jk ->
  let r := calculate_hard_match_score E resume_text job_text in
  let resume_skills := extract_technical_skills resume_text in
  let job_skills := extract_technical_skills job_text in
  skill_matches r = elements (set_of resume_skills ∩ set_of job_skills)
  /\ fuzzy_skill_matches r
     = fuzzy_match_skills (preprocessor E) resume_skills job_skills 75
  /\ missing_skills r = elements (set_of job_skills ∖ set_of resume_skills).
Proof.
  intros Hr Hj. cbv zeta.
  unfold calculate_hard_match_score, hard_match_body.
  rewrite Hr, Hj. cbn. auto.
Qed.

Lemma hard_match_raised (resume_text job_text : string) :
  (forall rk, extract_keywords (preprocessor E) resume_text 2 <> Ok rk)
  \/ (forall jk, extract_keywords (preprocessor E) job_text 2 <> Ok jk) ->
  calculate_hard_match_score E resume_text job_text = hard_match_failed.
Proof.
  unfold calculate_hard_match_score, hard_match_body.
  intros [H | H].
  - destruct (extract_keywords (preprocessor E) resume_text 2) as [rk | e];
      [destruct (H rk); reflexivity | reflexivity].
  - destruct (extract_keywords (preprocessor E) resume_text 2) as [rk | e];
      [| reflexivity].
    destruct (extract_keywords (preprocessor E) job_text 2) as [jk | e];
      [destruct (H jk); reflexivity | reflexivity].
Qed.

(** C5, amended.  In hard-match scoring the fuzzy matcher is given all
    the job skills, whether or not they are in the candidate's skill set: a
    job skill that is exactly matched is matched fuzzily as well, and has a
    fuzzy entry of similarity at least 0.75 whenever its score against
    itself reaches the threshold 75. *)
Theorem fuzzy_matching_covers_exact_matches (resume_text job_text : string) :
  let r := calculate_hard_match_score E resume_text job_text in
  (forall rk jk,
     extract_keywords (preprocessor E) resume_text 2 = Ok rk ->
     extract_keywords (preprocessor E) job_text 2 = Ok jk ->
     fuzzy_skill_matches r
     = fuzzy_match_skills (preprocessor E) (extract_technical_skills resume_text)
         (extract_technical_skills job_text) 75)
  /\ (forall skill,
        skill ∈ skill_matches r ->
        (75 <= token_sort_ratio (preprocessor E) skill skill)%Z ->
        skill ∈ extract_technical_skills resume_text
        /\ exists m, fuzzy_skill_matches r !! skill = Some m
                     /\ (0.75 <= similarity m)%Q).
Proof.
  cbv zeta. split.
  { intros rk jk Hr Hj. apply (hard_match_returned resume_text job_text rk jk Hr Hj). }
  intros skill Hin Hself.
  destruct (extract_keywords (preprocessor E) resume_text 2) as [rk | e] eqn:Hr;
    [| rewrite hard_match_raised in Hin by (left; congruence);
       apply not_elem_of_nil in Hin; contradiction].
  destruct (extract_keywords (preprocessor E) job_text 2) as [jk | e] eqn:Hj;
    [| rewrite hard_match_raised in Hin by (right; congruence);
       apply not_elem_of_nil in Hin; contradiction].
  destruct (hard_match_returned resume_text job_text rk jk Hr Hj) as (Hm & Hf & _).
  cbv zeta in Hm, Hf. rewrite Hm in Hin. rewrite Hf.
  apply elem_of_elements, elem_of_intersection in Hin as [Hrs Hjs].
  unfold set_of in Hrs, Hjs. apply elem_of_list_to_set in Hrs, Hjs.
  split; [exact Hrs |].
  destruct (fuzzy_lookup_spec (preprocessor E)
              (extract_technical_skills resume_text)
              (extract_technical_skills job_text) 75 skill) as (Hsome & Hkept & _).
  cbv zeta in Hsome, Hkept.
  destruct (Hkept Hjs skill Hrs Hself) as [m Hlook].
  exists m. split; [exact Hlook |].
  destruct (Hsome m Hlook) as (_ & _ & _ & Hth & ->).
  apply Qle_shift_div_l; [reflexivity |].
  apply Qle_trans with (inject_Z 75); [vm_compute; discriminate |].
  rewrite <- Zle_Qle. exact Hth.
Qed.

(** C10, amended.  When keyword extraction returns for both texts, the
    missing skills returned by [calculate_hard_match_score] are exactly the
    job skills that are not among the resume skills (the difference of the
    two extracted sets, each skill once), and a job skill with a fuzzy match
    but no exact match is still missing.  When keyword extraction raises
    for one of the texts the list is empty, whatever the job asks for.  In
    both cases the same list is the feedback's list of missing skills, and
    when it is not empty the first suggestion names its first five
    skills. *)
Theorem missing_skills_is_set_difference (resume_text job_text : string) :
  let r := calculate_hard_match_score E resume_text job_text in
  let resume_skills := extract_technical_skills resume_text in
  let job_skills := extract_technical_skills job_text in
  let fb := feedback (calculate_combined_score E resume_text job_text) in
  (forall resume_keywords job_keywords,
     extract_keywords (preprocessor E) resume_text 2 = Ok resume_keywords ->
     extract_keywords (preprocessor E) job_text 2 = Ok job_keywords ->
     NoDup (missing_skills r)
     /\ (forall s, s ∈ missing_skills r <-> s ∈ job_skills /\ s ∉ resume_skills)
     /\ (forall s, is_Some (fuzzy_skill_matches r !! s) -> s ∉ resume_skills ->
                   s ∈ missing_skills r))
  /\ (forall e,
        extract_keywords (preprocessor E) resume_text 2 = Raise e
        \/ extract_keywords (preprocessor E) job_text 2 = Raise e ->
        missing_skills r = [])
  /\ feedback_missing_skills fb = missing_skills r
  /\ (missing_skills r <> [] ->
      exists others,
        improvement_suggestions fb
        = ("Consider adding these technical skills to your resume: "
           ++ String.concat ", " (firstn 5 (missing_skills r))) :: others).
Proof.
  cbv zeta. split; [| split; [| split]].
  - intros rk jk Hr Hj.
    destruct (hard_match_returned resume_text job_text rk jk Hr Hj) as (_ & Hf & Hm).
    cbv zeta in Hf, Hm.
    assert (Hiff : forall s,
               s ∈ missing_skills (calculate_hard_match_score E resume_text job_text)
               <-> s ∈ extract_technical_skills job_text
                   /\ s ∉ extract_technical_skills resume_text).
    { intros s. rewrite Hm, elem_of_elements, elem_of_difference.
      unfold set_of. rewrite !elem_of_list_to_set. reflexivity. }
    split; [rewrite Hm; apply NoDup_elements |]. split; [exact Hiff |].
    intros s Hs Hnot. apply Hiff. split; [| exact Hnot].
    rewrite Hf in Hs.
    destruct (decide (s ∈ extract_technical_skills job_text)) as [Hin | Hout];
      [exact Hin |].
    destruct (fuzzy_lookup_spec (preprocessor E)
                (extract_technical_skills resume_text)
                (extract_technical_skills job_text) 75 s) as (_ & _ & _ & Hnone).
    cbv zeta in Hnone. rewrite (Hnone Hout) in Hs. destruct Hs as [m Hs]. discriminate.
  - intros e H. rewrite hard_match_raised; [reflexivity |].
    destruct H as [H | H]; [left | right]; intros k Hk; rewrite Hk in H; discriminate.
  - reflexivity.
  - intros Hne. unfold calculate_combined_score, combined_body, _generate_feedback.
    cbn [try_except feedback improvement_suggestions]. unfold suggest_skills.
    destruct (missing_skills (calculate_hard_match_score E resume_text job_text))
      as [| s l] eqn:Hm; [contradiction |].
    eexists. reflexivity.
Qed.

End Skills.

Section SkillsExamples.

Import Preprocessor Matching Examples.

Lemma fuzzy_matching_covers_exact_matches_witness :
  "python" ∈ extract_technical_skills "python"
  /\ exists m,
       fuzzy_skill_matches (calculate_hard_match_score (engine plain) "python" "python")
         !! "python" = Some m
       /\ (0.75 <= similarity m)%Q.
Proof.
  destruct (fuzzy_matching_covers_exact_matches (engine plain) "python" "python")
    as [_ H].
  apply (H "python").
  - vm_compute. apply list_elem_of_here.
  - vm_compute. discriminate.
Defined.

(** C5 as stated fails: the job skill [python] is matched exactly, and it
    is matched by the fuzzy matcher too. *)
Lemma exact_match_is_fuzzy_matched :
  let r := calculate_hard_match_score (engine plain) "python" "python" in
  skill_matches r = ["python"]
  /\ extract_technical_skills "python" = ["python"]
  /\ matched_skill <$> fuzzy_skill_matches r !! "python" = Some "python".
Proof.
  vm_compute. auto.
Qed.

Lemma missing_skills_is_set_difference_witness :
  "aws" ∈ missing_skills (calculate_hard_match_score (engine plain)
                            "python, azure" "python, aws, docker").
Proof.
  destruct (missing_skills_is_set_difference (engine plain)
              "python, azure" "python, aws, docker") as [H _].
  destruct (H (elements (list_to_set (C := gset string) ["python"; "azure"]))
              (elements (list_to_set (C := gset string) ["python"; "aws"; "docker"])))
    as (_ & Hiff & _).
  - vm_compute. reflexivity.
  - vm_compute. reflexivity.
  - apply Hiff. split.
    + vm_compute. repeat constructor.
    + intros Hin. vm_compute in Hin. apply list_elem_of_In in Hin.
      simpl in Hin. intuition discriminate.
Defined.

(** C10 as stated fails: the job asks for [python] and [aws], the resume
    has neither (its only skill is [r]), and since spaCy raises on the
    resume the list of missing skills is empty, in the result and in the
    feedback. *)
Lemma failed_extraction_reports_nothing_missing :
  let r := calculate_hard_match_score (engine fragile) "crash" "python, aws" in
  extract_keywords fragile "crash" 2 = Raise "ValueError"
  /\ extract_technical_skills "crash" = ["r"]
  /\ elements (set_of (extract_technical_skills "python, aws")
               ∖ set_of (extract_technical_skills "crash"))
     <> []
  /\ missing_skills r = []
  /\ feedback_missing_skills
       (feedback (calculate_combined_score (engine fragile) "crash" "python, aws"))
     = [].
Proof.
  cbv zeta. split; [vm_compute; reflexivity |]. split; [vm_compute; reflexivity |].
  split; [vm_compute; discriminate |]. split; vm_compute; reflexivity.
Qed.

End SkillsExamples.

(** ** Batch ranking *)

Section SortDesc.

Import Matching.
#[local] Open Scope Q_scope.

Context {A : Type} (key : A -> Q).







End SortDesc.

Section Batch.

Import Preprocessor Matching.
#[local] Open Scope Q_scope.

Variable E : MatchingEngine.

Lemma batch_collects_all (job_text : string) (resume_data : list resume) :
  batch_results
    (fun resume_text job_text => Ok (calculate_combined_score E resume_text job_text))
    job_text resume_data
  = map (Spec.batch_entry E job_text) resume_data.
Proof.
  unfold batch_results.
  induction resume_data as [| r l IH]; [reflexivity |].
  cbn [flat_map map]. rewrite IH. reflexivity.
Qed.

Lemma degraded_result (resume_text job_text e1 e2 : string) :
  hard_match_body E resume_text job_text = Raise e1 ->
  semantic_match_body E resume_text job_text = Raise e2 ->
  combined_score (calculate_combined_score E resume_text job_text) == 0
  /\ suitability (calculate_combined_score E resume_text job_text) = Low.
Proof.
  intros Hh Hs.
  assert (H0 : combined_score (calculate_combined_score E resume_text job_text) == 0).
  { unfold calculate_combined_score, combined_body.
    cbn [try_except combined_score].
    unfold calculate_hard_match_score, calculate_semantic_match_score.
    rewrite Hh, Hs. cbn. ring. }
  split; [exact H0 |]. revert H0.
  unfold calculate_combined_score, combined_body. cbn [try_except combined_score suitability].
  intros H0. apply classify_spec. rewrite H0. reflexivity.
Qed.



End Batch.

Section BatchLoop.

Import Preprocessor Matching Examples.
#[local] Open Scope Q_scope.


(** Errors inside the analyses do not reach the loop: the scorers absorb
    them, the scoring call returns, and such a candidate is ranked with its
    degraded score. *)
Example failing_analysis_is_ranked :
  hard_match_body (engine fragile) "crash" "python" = Raise "ValueError"
  /\ semantic_match_body (engine fragile) "crash" "python" = Raise "ValueError"
  /\ map summary
       (batch_process_resumes (engine fragile) "python"
          [candidate "A" "python"; candidate "B" "java"; candidate "C" "crash"])
     = [("A", 0.9, High); ("B", 0.3, Low); ("C", 0, Low)].
Proof.
  vm_compute. auto.
Qed.

End BatchLoop.

(** ** Text normalisation *)

Section Normalisation.

Import Text.

Ltac by_cases_on c :=
  destruct c as [[] [] [] [] [] [] [] []]; try reflexivity; try discriminate.

Lemma lower_char_not_upper (c : ascii) : is_upper (lower_char c) = false.
Proof. by_cases_on c. Qed.

Lemma lower_char_space (c : ascii) : is_space c = true -> lower_char c = c.
Proof. by_cases_on c. Qed.

Lemma lower_not_upper (s : list ascii) :
  Forall (fun c => is_upper c = false) (lower s).
Proof.
  induction s as [| c s IH]; constructor; [apply lower_char_not_upper | exact IH].
Qed.

Lemma lower_spaces (s : list ascii) :
  Forall (fun c => is_space c = true) s -> lower s = s.
Proof.
  induction 1 as [| c s Hc _ IH]; [reflexivity |].
  simpl. rewrite lower_char_space by exact Hc. f_equal. exact IH.
Qed.

(** [re.sub] only copies characters of the text and of the replacement. *)
Lemma sub_scan_Forall (P : ascii -> Prop) (r : regex) (repl : list ascii) :
  Forall P repl ->
  forall fuel prev s, Forall P s -> Forall P (sub_scan fuel r repl prev s).
Proof.
  intros Hrepl. induction fuel as [| fuel IH]; intros prev s Hs; [exact Hs |].
  destruct s as [| c s']; [constructor |].
  cbn [sub_scan].
  destruct (match_here r prev (c :: s')) as [[| m] |].
  - inversion Hs; subst. constructor; [assumption | apply IH; assumption].
  - apply Forall_app. split; [exact Hrepl |].
    apply IH. apply Forall_drop. exact Hs.
  - inversion Hs; subst. constructor; [assumption | apply IH; assumption].
Qed.

Lemma re_sub_Forall (P : ascii -> Prop) (r : regex) (repl s : list ascii) :
  Forall P repl -> Forall P s -> Forall P (re_sub r repl s).
Proof. intros Hrepl Hs. apply sub_scan_Forall; assumption. Qed.

Lemma match_here_class (p : ascii -> bool) (prev : option ascii) (c : ascii)
    (s : list ascii) :
  match_here (Class p) prev (c :: s) = if p c then Some 1%nat else None.
Proof.
  unfold match_here. cbn [rmatch]. destruct (p c); [| reflexivity].
  f_equal. cbn [length]. clear. lia.
Qed.

(** After the punctuation step only word characters and spaces are left. *)
Lemma punct_scan (fuel : nat) (prev : option ascii) (s : list ascii) :
  (length s <= fuel)%nat ->
  Forall (fun c => is_word c || is_space c = true)
    (sub_scan fuel re_punct [" "%char] prev s).
Proof.
  revert prev s. induction fuel as [| fuel IH]; intros prev s Hlen.
  - destruct s; [constructor | simpl in Hlen; lia].
  - destruct s as [| c s']; [constructor |].
    cbn [sub_scan]. unfold re_punct at 1. rewrite match_here_class.
    simpl in Hlen.
    destruct (negb (is_word c || is_space c)) eqn:Hc.
    + change (skipn 1 (c :: s')) with s'. cbn [app].
      constructor; [reflexivity |]. apply IH. lia.
    + constructor; [apply negb_false_iff in Hc; exact Hc |]. apply IH. lia.
Qed.

Lemma split_from_clean (P : ascii -> Prop) (s cur : list ascii) :
  Forall P s ->
  Forall (fun c => is_space c = false /\ P c) cur ->
  Forall (Spec.clean_word P) (split_from cur s).
Proof.
  revert cur. induction s as [| c s IH]; intros cur Hs Hcur.
  - cbn [split_from]. destruct cur as [| a cur]; [constructor |].
    constructor; [| constructor]. split.
    + intros H. apply (f_equal (@length ascii)) in H.
      rewrite length_rev in H. discriminate.
    + apply Forall_rev. exact Hcur.
  - inversion Hs; subst. cbn [split_from].
    destruct (is_space c) eqn:Hc.
    + destruct cur as [| a cur]; [apply IH; [assumption | constructor] |].
      constructor; [| apply IH; [assumption | constructor]].
      split.
      * intros H. apply (f_equal (@length ascii)) in H.
        rewrite length_rev in H. discriminate.
      * apply Forall_rev. exact Hcur.
    + apply IH; [assumption |]. constructor; [split; assumption | exact Hcur].
Qed.

Lemma lstrip_clean (s : list ascii) :
  match s with c :: _ => is_space c = false | [] => True end -> lstrip s = s.
Proof. destruct s as [| c s]; [reflexivity |]. simpl. intros ->. reflexivity. Qed.

Lemma join_ends_clean (P : ascii -> Prop) (w : list ascii) (ws : list (list ascii)) :
  Forall (Spec.clean_word P) (w :: ws) ->
  exists l c, join (w :: ws) = (l ++ [c])%list /\ is_space c = false.
Proof.
  revert w. induction ws as [| w2 ws IH]; intros w Hall.
  - inversion Hall as [| ? ? [Hne Hw] _]; subst. cbn [join].
    destruct (exists_last Hne) as (l & c & ->).
    exists l, c. split; [reflexivity |].
    apply Forall_app in Hw as [_ Hc]. inversion Hc as [| ? ? [Hsp _] _]. exact Hsp.
  - inversion Hall as [| ? ? _ Hrest]; subst.
    destruct (IH w2 Hrest) as (l & c & Heq & Hc).
    exists (w ++ " "%char :: l)%list, c. split; [| exact Hc].
    change (join (w :: w2 :: ws)) with (w ++ " "%char :: join (w2 :: ws))%list.
    rewrite Heq. rewrite <- app_assoc. reflexivity.
Qed.

Lemma strip_join (P : ascii -> Prop) (ws : list (list ascii)) :
  Forall (Spec.clean_word P) ws -> strip (join ws) = join ws.
Proof.
  intros Hall. destruct ws as [| w ws]; [reflexivity |].
  destruct (join_ends_clean P w ws Hall) as (l & c & Heq & Hc).
  unfold strip. rewrite (lstrip_clean (join (w :: ws))).
  - rewrite Heq, rev_unit. rewrite (lstrip_clean (c :: rev l)) by exact Hc.
    cbn [rev]. rewrite rev_involutive. reflexivity.
  - inversion Hall as [| ? ? [Hne Hw] _]; subst.
    destruct w as [| a w]; [contradiction |].
    inversion Hw as [| ? ? [Hsp _] _]; subst.
    destruct ws; exact Hsp.
Qed.

Lemma preprocess_chars_words (text : list ascii) :
  exists words,
    preprocess_chars text = join words /\ Forall Spec.normal_word words.
Proof.
  destruct text as [| c0 text]; [exists []; split; [reflexivity | constructor] |].
  set (s := Spec.punctuated (c0 :: text)).
  assert (Hs : Forall (fun c => is_upper c = false /\ is_word c || is_space c = true) s).
  { apply Forall_and. split.
    - unfold s, Spec.punctuated.
      repeat (apply re_sub_Forall; [repeat constructor |]).
      apply lower_not_upper.
    - unfold s, Spec.punctuated, re_sub at 1. apply punct_scan. lia. }
  pose proof (split_from_clean _ s [] Hs (List.Forall_nil _)) as Hw.
  exists (split s). split.
  - change (preprocess_chars (c0 :: text)) with (strip (join (split s))).
    apply (strip_join _ _ Hw).
  - eapply Forall_impl; [exact Hw |].
    intros w [Hne Hall]. split; [exact Hne |].
    eapply Forall_impl; [exact Hall |].
    simpl. intros c (Hsp & Hup & Hor). split; [| exact Hup].
    rewrite Hsp, orb_false_r in Hor. exact Hor.
Qed.

(** The repetition [\s+] swallows a run of spaces whole. *)
Lemma spaces_loop (fuel i : nat) (prev : option ascii) (s : list ascii) :
  Forall (fun c => is_space c = true) s ->
  (length s <= fuel)%nat -> (1 <= i + length s)%nat ->
  iterate (rmatch (Class is_space)) 1 None (fun _ rest => Some (length rest))
    fuel i prev s = Some 0%nat.
Proof.
  revert i prev s. induction fuel as [| fuel IH]; intros i prev s Hs Hlen Hi.
  - destruct s; [| simpl in Hlen; lia]. simpl in Hi. cbn [iterate].
    destruct (Nat.leb_spec 1 i); [reflexivity | lia].
  - cbn [iterate below]. destruct s as [| c s'].
    + cbn [rmatch]. simpl in Hi. destruct (Nat.leb_spec 1 i); [reflexivity | lia].
    + inversion Hs as [| ? ? Hc Hs']; subst. cbn [rmatch]. rewrite Hc.
      simpl in Hlen, Hi.
      destruct (Nat.ltb_spec (length s') (length (c :: s'))) as [_ | H];
        [| simpl in H; lia].
      rewrite IH; [reflexivity | exact Hs' | lia | lia].
Qed.

Lemma sub_scan_nil (fuel : nat) (r : regex) (repl : list ascii) (prev : option ascii) :
  sub_scan fuel r repl prev [] = [].
Proof. destruct fuel; reflexivity. Qed.

Lemma re_sub_spaces (s : list ascii) :
  s <> [] -> Forall (fun c => is_space c = true) s ->
  re_sub re_spaces [" "%char] s = [" "%char].
Proof.
  intros Hne Hs. destruct s as [| c s']; [contradiction |].
  unfold re_sub. cbn [length sub_scan].
  assert (Hm : match_here re_spaces None (c :: s') = Some (S (length s'))).
  { unfold match_here, re_spaces, plus. cbn [rmatch].
    rewrite spaces_loop; [f_equal; cbn [length]; lia | exact Hs | lia | simpl; lia]. }
  rewrite Hm.
  change (S (length s')) with (length (c :: s')).
  rewrite skipn_all. rewrite sub_scan_nil. reflexivity.
Qed.

Lemma preprocess_chars_spaces (text : list ascii) :
  Forall (fun c => is_space c = true) text -> preprocess_chars text = [].
Proof.
  intros Hs. destruct text as [| c text]; [reflexivity |].
  unfold preprocess_chars. cbv zeta.
  rewrite (lower_spaces _ Hs).
  rewrite re_sub_spaces by (exact Hs || discriminate).
  vm_compute. reflexivity.
Qed.

Lemma join_Forall (P : ascii -> Prop) (ws : list (list ascii)) :
  P " "%char -> Forall (Forall P) ws -> Forall P (join ws).
Proof.
  intros Hsp. induction 1 as [| w ws Hw Hws IH]; [constructor |].
  destruct ws as [| w2 ws]; [exact Hw |].
  change (join (w :: w2 :: ws)) with (w ++ " "%char :: join (w2 :: ws))%list.
  apply Forall_app. split; [exact Hw |]. constructor; [exact Hsp | exact IH].
Qed.

(** *** A text that is one URL

    The pattern of the URL step, after [http://] or [https://], takes one
    or more characters of its class. *)











End Normalisation.

Section NormalisedText.

Import Text.




Lemma preprocess_text_spaces (text : string) :
  Forall (fun c => is_space c = true) (list_ascii_of_string text) ->
  preprocess_text text = "".
Proof.
  intros H. unfold preprocess_text. rewrite preprocess_chars_spaces by exact H.
  reflexivity.
Qed.

End NormalisedText.

Section ZeroVectors.

Import Embedding.
#[local] Open Scope float_scope.

Variable M : SentenceTransformer.

Lemma dot_zeros (n : nat) : dot (zeros n) (zeros n) = Ok 0.
Proof.
  induction n as [| n IH]; [reflexivity |].
  change (zeros (S n)) with (0 :: zeros n). cbn [dot]. rewrite IH. reflexivity.
Qed.

Lemma norm_zeros (n : nat) : norm (zeros n) = 0.
Proof.
  unfold norm.
  assert (H : fold_right (fun x s => x * x + s) 0 (zeros n) = 0).
  { induction n as [| n IH]; [reflexivity |].
    change (zeros (S n)) with (0 :: zeros n). cbn [fold_right]. rewrite IH.
    reflexivity. }
  rewrite H. reflexivity.
Qed.

Lemma generate_embedding_empty (text : string) (st : service_state) :
  Preprocessor.preprocess_text text = "" ->
  generate_embedding M text st = (zeros (get_sentence_embedding_dimension M), st).
Proof. intros H. unfold generate_embedding. rewrite H. reflexivity. Qed.

(** C7.  A text that normalises to the empty string gets the zero vector
    of the model's dimension, and the model is not called; but the
    similarity of two such texts divides zero by zero, and the not-a-number
    that results is turned into 1 by [min] and [max]: the service answers
    1.0, not 0.0. *)
Theorem empty_texts_are_fully_similar (text1 text2 : string) (st : service_state) :
  Preprocessor.preprocess_text text1 = "" ->
  Preprocessor.preprocess_text text2 = "" ->
  generate_embedding M text1 st = (zeros (get_sentence_embedding_dimension M), st)
  /\ encode_calls (snd (generate_embedding M text1 st)) = encode_calls st
  /\ calculate_semantic_similarity M text1 text2 st = (1, st).
Proof.
  intros H1 H2. unfold calculate_semantic_similarity.
  rewrite !generate_embedding_empty by assumption.
  split; [reflexivity |]. split; [reflexivity |].
  rewrite dot_zeros. cbn [mbind outcome_bind try_except].
  rewrite norm_zeros. reflexivity.
Qed.

End ZeroVectors.

Section ZeroVectorsExamples.

Import Embedding Examples.

Lemma empty_texts_are_fully_similar_witness :
  calculate_semantic_similarity model "" "  " fresh = (1%float, fresh).
Proof.
  apply (empty_texts_are_fully_similar model "" "  " fresh).
  - reflexivity.
  - apply preprocess_text_spaces. repeat constructor.
Defined.

End ZeroVectorsExamples.

(** ** The vector store *)

Section Nearest.

Import Embedding.
#[local] Open Scope Q_scope.


Lemma l2_nonneg (u v : list float) : 0 <= l2 u v.
Proof.
  revert v. induction u as [| x u IH]; intros v; [apply Qle_refl |].
  destruct v as [| y v]; [apply Qle_refl |]. cbn [l2].
  specialize (IH v). generalize dependent (l2 u v). intros d Hd.
  generalize (to_Q x - to_Q y). intros a.
  assert (Ha : 0 <= a * a).
  { destruct (Qlt_le_dec a 0) as [H | H].
    - assert (E : a * a == (- a) * (- a)) by ring. rewrite E.
      apply Qmult_le_0_compat; lra.
    - apply Qmult_le_0_compat; exact H. }
  lra.
Qed.

Context {A : Type} (key : A -> Q).


Lemma sort_asc_perm (l : list A) : foldr (insert_asc key) [] l ≡ₚ l.
Proof.
  induction l as [| x l IH]; [reflexivity |]. cbn [foldr].
  rewrite <- IH at 2. generalize (foldr (insert_asc key) [] l). clear.
  intros l. induction l as [| y l IH]; simpl; [reflexivity |].
  destruct (Qlt_le_dec (key y) (key x)); [| reflexivity].
  rewrite IH. apply Permutation_swap.
Qed.

End Nearest.

Section VectorStore.

Import Embedding.
#[local] Open Scope Q_scope.

Variable M : SentenceTransformer.

Lemma add_existing (id : string) (rec : stored) (c : gmap string stored) :
  metadata rec <> [] -> is_Some (c !! id) -> add id rec c = Ok c.
Proof.
  intros Hm [old H]. unfold add. rewrite H.
  destruct (metadata rec); [contradiction | reflexivity].
Qed.


Lemma add_rejected (id : string) (rec : stored) (c : gmap string stored) :
  metadata rec = [] -> exists e, add id rec c = Raise e.
Proof. intros Hm. unfold add. rewrite Hm. eexists. reflexivity. Qed.

Lemma generate_embedding_vector (text : string) (st st' : service_state) :
  fst (generate_embedding M text st) = fst (generate_embedding M text st').
Proof.
  unfold generate_embedding.
  destruct (Preprocessor.preprocess_text text); [reflexivity |].
  destruct (encode M _); reflexivity.
Qed.

Lemma generate_embedding_collections (text : string) (st : service_state) :
  resume_collection (snd (generate_embedding M text st)) = resume_collection st.
Proof.
  unfold generate_embedding.
  destruct (Preprocessor.preprocess_text text); [reflexivity |].
  destruct (encode M _); reflexivity.
Qed.

Lemma store_resume_collection (resume_id text : string)
    (meta : option (list (string * string))) (st : service_state) :
  resume_collection (store_resume_embedding M resume_id text meta st)
  = match add resume_id
            {| embedding := fst (generate_embedding M text st);
               document := String.substring 0 1000 text;
               metadata := default [] meta |}
            (resume_collection st) with
    | Ok c => c
    | Raise _ => resume_collection st
    end.
Proof.
  unfold store_resume_embedding.
  pose proof (generate_embedding_collections text st) as H.
  destruct (generate_embedding M text st) as [e st1]. cbn in H |- *.
  rewrite H. destruct (add resume_id _ (resume_collection st)); cbn; [reflexivity | exact H].
Qed.


End VectorStore.

Section VectorStoreExamples.

Import Embedding Examples.
#[local] Open Scope Q_scope.



End VectorStoreExamples.

(** * Further properties of the code

    ** Ranges of the hard-match scores *)

Section Ranges.

Import Preprocessor Matching.
#[local] Open Scope Q_scope.

Variable E : MatchingEngine.

Lemma size_set_of (l : list string) : (size (set_of l) <= length l)%nat.
Proof.
  unfold set_of. unfold size, set_size. simpl.
  apply submseteq_length, NoDup_submseteq; [apply NoDup_elements |].
  intros x Hx. apply elem_of_elements, elem_of_list_to_set in Hx. exact Hx.
Qed.

Lemma matches_within (found wanted : list string) :
  (size (set_of found ∩ set_of wanted) <= length wanted)%nat.
Proof.
  etransitivity; [| apply size_set_of].
  apply subseteq_size. apply intersection_subseteq_r.
Qed.

Lemma of_nat_le (n m : nat) : (n <= m)%nat -> of_nat n <= of_nat m.
Proof. intros H. unfold of_nat. rewrite <- Zle_Qle. lia. Qed.

Lemma ratio_at_most_1 (n m : nat) : (n <= m)%nat -> of_nat n / of_nat m <= 1.
Proof.
  intros H. pose proof (of_nat_nonneg m) as Hm. pose proof (of_nat_le n m H) as Hnm.
  destruct (Qeq_dec (of_nat m) 0) as [Hz | Hz].
  - unfold Qdiv. rewrite Hz. unfold Qinv. simpl. lra.
  - apply Qle_shift_div_r; lra.
Qed.

Lemma sum_similarity_bound (fm : gmap string fuzzy_match) :
  (forall k m, fm !! k = Some m -> similarity m <= 1) ->
  sum_similarity fm <= of_nat (size fm).
Proof.
  intros Hall. unfold sum_similarity.
  rewrite <- length_map_to_list.
  assert (H : forall km, km ∈ map_to_list fm -> similarity (snd km) <= 1).
  { intros [k m] Hkm. apply elem_of_map_to_list in Hkm. apply (Hall k m Hkm). }
  revert H. generalize (map_to_list fm). intros l.
  induction l as [| km l IH]; intros H; cbn [map foldr length].
  - apply Qle_refl.
  - assert (H1 : similarity (snd km) <= 1) by (apply H; apply list_elem_of_here).
    assert (H2 : foldr (fun m acc => similarity m + acc) 0 (map snd l) <= of_nat (length l)).
    { apply IH. intros km' Hin. apply H. apply list_elem_of_further. exact Hin. }
    unfold of_nat in *. rewrite Nat2Z.inj_succ. unfold Z.succ. rewrite inject_Z_plus.
    change (inject_Z 1) with 1. lra.
Qed.

Lemma fuzzy_similarity_at_most_1 (resume_skills job_skills : list string) (threshold : Z) :
  (forall a b, (token_sort_ratio (preprocessor E) a b <= 100)%Z) ->
  forall k m,
    fuzzy_match_skills (preprocessor E) resume_skills job_skills threshold !! k = Some m ->
    similarity m <= 1.
Proof.
  intros Hmax k m Hk.
  destruct (fuzzy_lookup_spec (preprocessor E) resume_skills job_skills threshold k)
    as (Hsome & _).
  destruct (Hsome m Hk) as (_ & _ & _ & _ & ->).
  apply Qle_shift_div_r; [reflexivity |].
  rewrite Qmult_1_l. change 100 with (inject_Z 100). rewrite <- Zle_Qle. apply Hmax.
Qed.

Lemma skill_score_at_most_1 (resume_text job_text : string) :
  (forall a b, (token_sort_ratio (preprocessor E) a b <= 100)%Z) ->
  skill_score (calculate_hard_match_score E resume_text job_text) <= 1.
Proof.
  intros Hmax. unfold calculate_hard_match_score, hard_match_body.
  destruct (extract_keywords (preprocessor E) resume_text 2) as [rk | e]; simpl; [| lra].
  destruct (extract_keywords (preprocessor E) job_text 2) as [jk | e]; simpl; [| lra].
  set (rs := extract_technical_skills resume_text).
  set (js := extract_technical_skills job_text).
  destruct js as [| j0 js'] eqn:Hjs; [lra |].
  rewrite <- Hjs. rewrite py_max_Qmax. apply Q.max_lub.
  - apply ratio_at_most_1, matches_within.
  - set (fm := fuzzy_match_skills (preprocessor E) rs js 75).
    assert (H1 : sum_similarity fm <= of_nat (size fm)).
    { apply sum_similarity_bound. apply fuzzy_similarity_at_most_1. exact Hmax. }
    assert (H2 : (size fm <= length js)%nat).
    { unfold fm, fuzzy_match_skills.
      pose proof (fuzzy_loop_size (preprocessor E) rs js 75 ∅) as H.
      rewrite map_size_empty in H. exact H. }
    assert (H3 : sum_similarity fm / of_nat (length js) <= 1).
    { pose proof (of_nat_le _ _ H2) as H4.
      assert (Hpos : 0 < of_nat (length js)).
      { rewrite Hjs. unfold of_nat. change 0 with (inject_Z 0). rewrite <- Zlt_Qlt.
        cbn [length]. lia. }
      apply Qle_shift_div_r; lra. }
    lra.
Qed.

Lemma coverage_scores_in_range (resume_text job_text : string) :
  keyword_score (calculate_hard_match_score E resume_text job_text) <= 1
  /\ cert_score (calculate_hard_match_score E resume_text job_text) <= 1.
Proof.
  unfold calculate_hard_match_score, hard_match_body.
  destruct (extract_keywords (preprocessor E) resume_text 2) as [rk | e]; simpl;
    [| split; lra].
  destruct (extract_keywords (preprocessor E) job_text 2) as [jk | e]; simpl;
    [| split; lra].
  split.
  - destruct jk as [| k jk'] eqn:Hjk; [lra |]. rewrite <- Hjk.
    apply ratio_at_most_1, matches_within.
  - destruct (extract_certifications job_text) as [| c cs] eqn:Hc; [lra |].
    rewrite <- Hc. apply ratio_at_most_1, matches_within.
Qed.

(** X1.  Every score of a hard-match result is a fraction: the hard-match
    score, the keyword score and the certification score lie in [0,1] for
    every pair of texts, the skill score is never negative, and it is at
    most 1 when the fuzzy scorer stays on its 0..100 scale. *)
Theorem hard_match_scores_are_fractions (resume_text job_text : string) :
  let r := calculate_hard_match_score E resume_text job_text in
  0 <= hard_match_score r <= 1
  /\ 0 <= keyword_score r <= 1
  /\ 0 <= cert_score r <= 1
  /\ 0 <= skill_score r
  /\ ((forall a b, (token_sort_ratio (preprocessor E) a b <= 100)%Z) ->
      skill_score r <= 1).
Proof.
  cbv zeta.
  destruct (skill_score_nonneg E resume_text job_text) as (Hs & Hk & Hc).
  destruct (coverage_scores_in_range resume_text job_text) as (Hk1 & Hc1).
  split; [apply hard_match_score_in_range |].
  split; [split; assumption |]. split; [split; assumption |].
  split; [exact Hs |]. apply skill_score_at_most_1.
Qed.

End Ranges.

Section RangesExamples.

Import Preprocessor Matching Examples.
#[local] Open Scope Q_scope.

Lemma hard_match_scores_are_fractions_witness :
  skill_score (calculate_hard_match_score (engine plain) "python, azure" "python, aws")
  <= 1.
Proof.
  destruct (hard_match_scores_are_fractions (engine plain) "python, azure" "python, aws")
    as (_ & _ & _ & _ & H).
  apply H. intros a b. cbn. unfold equal_ratio. destruct (String.eqb a b); lia.
Defined.

End RangesExamples.

(** ** Self match and feedback *)

Section Extraction.

Import Preprocessor.

Lemma certifications_NoDup : NoDup certifications.
Proof. apply (bool_decide_unpack _). vm_compute. reflexivity. Qed.

Lemma extract_certifications_NoDup (text : string) :
  NoDup (extract_certifications text).
Proof. unfold extract_certifications. apply NoDup_filter, certifications_NoDup. Qed.

Lemma extract_technical_skills_NoDup (text : string) :
  NoDup (extract_technical_skills text).
Proof. unfold extract_technical_skills. apply NoDup_elements. Qed.

Lemma Ok_inj {A : Type} (a b : A) : Ok a = Ok b -> a = b.
Proof. intros H. injection H as H. exact H. Qed.

Lemma extract_keywords_NoDup (P : TextPreprocessor) (text : string) (n : nat)
    (kw : list string) :
  extract_keywords P text n = Ok kw -> NoDup kw.
Proof.
  unfold extract_keywords. destruct text as [| c text].
  - intros H. apply Ok_inj in H. subst kw. constructor.
  - destruct (nlp P) as [analyse |].
    + cbn [mbind outcome_bind].
      destruct (analyse _) as [d | e]; [| discriminate].
      intros H. apply Ok_inj in H. subst kw. apply NoDup_elements.
    + cbn [mbind outcome_bind]. intros H. apply Ok_inj in H. subst kw.
      apply NoDup_elements.
Qed.

End Extraction.

Section SelfMatch.

Import Preprocessor Matching.
#[local] Open Scope Q_scope.

Variable E : MatchingEngine.

Lemma full_coverage (l : list string) :
  NoDup l -> l <> [] -> of_nat (size (set_of l ∩ set_of l)) / of_nat (length l) == 1.
Proof.
  intros Hnd Hne.
  assert (Hsize : size (set_of l ∩ set_of l) = length l).
  { rewrite intersection_idemp_L. unfold set_of. apply size_list_to_set. exact Hnd. }
  rewrite Hsize.
  assert (Hpos : 0 < of_nat (length l)).
  { destruct l; [contradiction |]. unfold of_nat. change 0 with (inject_Z 0).
    rewrite <- Zlt_Qlt. cbn [length]. lia. }
  field. lra.
Qed.

(** X2.  A text matched against itself has nothing missing: no missing
    skill and no missing certification, and the exact matches are its
    skills, each once.  Each of the three sub-scores is full (the skill
    score at least 1, the keyword and certification scores 1) as soon as
    the text has a skill, a keyword, a certification. *)
Theorem self_match_is_complete (text : string) (kw : list string) :
  extract_keywords (preprocessor E) text 2 = Ok kw ->
  let r := calculate_hard_match_score E text text in
  missing_skills r = []
  /\ missing_certs r = []
  /\ skill_matches r ≡ₚ extract_technical_skills text
  /\ (extract_technical_skills text <> [] -> 1 <= skill_score r)
  /\ (kw <> [] -> keyword_score r == 1)
  /\ (extract_certifications text <> [] -> cert_score r == 1).
Proof.
  intros Hkw. cbv zeta.
  pose proof (extract_keywords_NoDup _ _ _ _ Hkw) as Hnd.
  assert (Hs : extract_technical_skills text <> [] ->
               1 <= skill_score (calculate_hard_match_score E text text)).
  { unfold calculate_hard_match_score, hard_match_body. rewrite Hkw. simpl.
    destruct (extract_technical_skills text) as [| s l] eqn:Hl; [congruence |].
    intros _. rewrite <- Hl. rewrite py_max_Qmax.
    eapply Qle_trans; [| apply Q.le_max_l].
    rewrite full_coverage; [apply Qle_refl | | congruence].
    rewrite Hl. rewrite <- Hl. apply extract_technical_skills_NoDup. }
  assert (Hk : kw <> [] -> keyword_score (calculate_hard_match_score E text text) == 1).
  { unfold calculate_hard_match_score, hard_match_body. rewrite Hkw. simpl.
    destruct kw as [| k l] eqn:Hl; [congruence |].
    intros _. rewrite <- Hl in *. apply full_coverage; [exact Hnd | congruence]. }
  assert (Hc : extract_certifications text <> [] ->
               cert_score (calculate_hard_match_score E text text) == 1).
  { unfold calculate_hard_match_score, hard_match_body. rewrite Hkw. simpl.
    destruct (extract_certifications text) as [| c l] eqn:Hl; [congruence |].
    intros _. rewrite <- Hl. apply full_coverage; [| congruence].
    apply extract_certifications_NoDup. }
  split; [| split; [| split; [| split; [exact Hs | split; [exact Hk | exact Hc]]]]].
  - unfold calculate_hard_match_score, hard_match_body. rewrite Hkw. simpl.
    rewrite difference_diag_L. apply elements_empty.
  - unfold calculate_hard_match_score, hard_match_body. rewrite Hkw. simpl.
    rewrite difference_diag_L. apply elements_empty.
  - unfold calculate_hard_match_score, hard_match_body. rewrite Hkw. simpl.
    rewrite intersection_idemp_L. unfold extract_technical_skills, set_of.
    rewrite list_to_set_elements_L. reflexivity.
Qed.

End SelfMatch.

Section SelfMatchExamples.

Import Preprocessor Matching Examples.

Lemma self_match_is_complete_witness :
  missing_skills (calculate_hard_match_score (engine plain)
                    "python and aws certified" "python and aws certified") = [].
Proof.
  apply (self_match_is_complete (engine plain) "python and aws certified"
           (elements (list_to_set (C := gset string)
                        ["python"; "and"; "aws"; "certified"]))).
  vm_compute. reflexivity.
Defined.

End SelfMatchExamples.

Section Feedback.

Import Preprocessor Matching.
#[local] Open Scope Q_scope.

Variable E : MatchingEngine.

(** X3.  The feedback carries at most six suggestions; it carries none
    exactly when no skill and no certification is missing, the semantic
    score is at least 0.5 and the hard-match score at least 0.4.  The AI
    suggestions are present exactly when the OpenAI service is available,
    and they are the empty list when its call raises. *)
Theorem feedback_suggestions (hard : hard_match_results)
    (semantic : semantic_match_results) (resume_text job_text : string) :
  let fb := _generate_feedback E hard semantic resume_text job_text in
  (length (improvement_suggestions fb) <= 6)%nat
  /\ (improvement_suggestions fb = []
      <-> missing_skills hard = [] /\ missing_certs hard = []
          /\ 0.5 <= semantic_match_score semantic /\ 0.4 <= hard_match_score hard)
  /\ (ai_improvement_suggestions fb = None
      <-> openai_is_available (openai_service E) = false)
  /\ (forall e,
        openai_is_available (openai_service E) = true ->
        generate_improvement_suggestions (openai_service E) resume_text job_text
          (missing_skills hard) = Raise e ->
        ai_improvement_suggestions fb = Some []).
Proof.
  cbv zeta. unfold _generate_feedback.
  cbn [improvement_suggestions ai_improvement_suggestions].
  unfold suggest_skills, suggest_certifications, suggest_semantic, suggest_hard.
  split; [| split; [| split]].
  - destruct (missing_skills hard), (missing_certs hard),
      (Qlt_le_dec (semantic_match_score semantic) 0.5),
      (Qlt_le_dec (hard_match_score hard) 0.4); cbn; lia.
  - destruct (missing_skills hard), (missing_certs hard),
      (Qlt_le_dec (semantic_match_score semantic) 0.5) as [Hs | Hs],
      (Qlt_le_dec (hard_match_score hard) 0.4) as [Hh | Hh]; cbn;
      split; try discriminate; try (intros _; repeat split; assumption);
      intros (H1 & H2 & H3 & H4); try discriminate; try reflexivity;
      exfalso; lra.
  - destruct (openai_is_available (openai_service E)); split; congruence.
  - intros e Ha Hr. rewrite Ha, Hr. reflexivity.
Qed.

End Feedback.

Section FeedbackExamples.

Import Preprocessor Matching Examples.

Lemma feedback_suggestions_witness :
  ai_improvement_suggestions
    (_generate_feedback
       {| preprocessor := plain;
          calculate_semantic_similarity := fun _ _ => 0.5%Q;
          openai_service := available_but_failing;
          huggingface_service := no_huggingface;
          hard_match_weight := 0.4%Q;
          semantic_match_weight := 0.6%Q |}
       hard_match_failed
       {| semantic_match_score := 0; sentence_matches := None; contextual_relevance := 0 |}
       "a" "b")
  = Some [].
Proof.
  eapply feedback_suggestions; reflexivity.
Defined.

End FeedbackExamples.

(** ** Sentence alignment and the percentage *)

Section Sentences.

Import Preprocessor Matching.
#[local] Open Scope Q_scope.

Variable E : MatchingEngine.

Lemma best_sentence_spec (job_sent : string) (resume_sentences : list string)
    (best_sim : Q) (best_resume_sent : string) :
  let '(sim, sent) :=
    best_sentence E job_sent resume_sentences best_sim best_resume_sent in
  best_sim <= sim
  /\ (forall s, s ∈ resume_sentences -> calculate_semantic_similarity E job_sent s <= sim)
  /\ ((sim = best_sim /\ sent = best_resume_sent)
      \/ (sent ∈ resume_sentences /\ sim = calculate_semantic_similarity E job_sent sent)).
Proof.
  revert best_sim best_resume_sent.
  induction resume_sentences as [| r rs IH]; intros b0 s0; cbn [best_sentence].
  - split; [apply Qle_refl |]. split; [| left; split; reflexivity].
    intros s Hs. apply not_elem_of_nil in Hs. contradiction.
  - destruct (Qlt_le_dec b0 (calculate_semantic_similarity E job_sent r)) as [Hlt | Hle].
    + specialize (IH (calculate_semantic_similarity E job_sent r) r).
      destruct (best_sentence E job_sent rs _ r) as [sim sent].
      destruct IH as (H1 & H2 & H3). split; [lra |]. split.
      * intros s Hs. apply elem_of_cons in Hs as [-> | Hs]; [exact H1 | apply H2, Hs].
      * right. destruct H3 as [[-> ->] | [Hin Heq]].
        -- split; [apply list_elem_of_here | reflexivity].
        -- split; [apply list_elem_of_further; exact Hin | exact Heq].
    + specialize (IH b0 s0).
      destruct (best_sentence E job_sent rs b0 s0) as [sim sent].
      destruct IH as (H1 & H2 & H3). split; [exact H1 |]. split.
      * intros s Hs. apply elem_of_cons in Hs as [-> | Hs]; [lra | apply H2, Hs].
      * destruct H3 as [H3 | [Hin Heq]]; [left; exact H3 |].
        right. split; [apply list_elem_of_further; exact Hin | exact Heq].
Qed.

Lemma kept_matches_aligned (job_sentences resume_sentences : list string) :
  let ms :=
    flat_map (fun job_sent =>
                let '(best_sim, best_resume_sent) :=
                  best_sentence E job_sent resume_sentences 0 "" in
                if Qlt_le_dec 0.3 best_sim
                then [ {| job_sentence := job_sent;
                          resume_sentence := best_resume_sent;
                          sentence_similarity := best_sim |} ]
                else [])
      job_sentences in
  (length ms <= length job_sentences)%nat
  /\ Forall (Spec.aligned E job_sentences resume_sentences) ms.
Proof.
  cbv zeta. induction job_sentences as [| j js IH].
  - split; [cbn; lia | constructor].
  - cbn [flat_map length]. destruct IH as [IH1 IH2].
    assert (IH3 : Forall (Spec.aligned E (j :: js) resume_sentences)
                    (flat_map (fun job_sent =>
                       let '(best_sim, best_resume_sent) :=
                         best_sentence E job_sent resume_sentences 0 "" in
                       if Qlt_le_dec 0.3 best_sim
                       then [ {| job_sentence := job_sent;
                                 resume_sentence := best_resume_sent;
                                 sentence_similarity := best_sim |} ]
                       else []) js)).
    { eapply Forall_impl; [exact IH2 |]. unfold Spec.aligned.
      intros m (H1 & H2 & H3). split; [exact H1 |].
      split; [apply list_elem_of_further; exact H2 | exact H3]. }
    pose proof (best_sentence_spec j resume_sentences 0 "") as Hb.
    destruct (best_sentence E j resume_sentences 0 "") as [sim sent].
    destruct Hb as (H0 & Hmax & Hwho).
    destruct (Qlt_le_dec 0.3 sim) as [Hbig | Hsmall]; cbn [app length].
    + split; [lia |]. constructor; [| exact IH3].
      unfold Spec.aligned. cbn [sentence_similarity job_sentence resume_sentence].
      split; [exact Hbig |]. split; [apply list_elem_of_here |].
      destruct Hwho as [[-> _] | [Hin Heq]]; [exfalso; lra |].
      split; [exact Hin |]. split; [exact Heq | exact Hmax].
    + split; [lia | exact IH3].
Qed.

Lemma best_matches_aligned (job_sentences resume_sentences : list string) :
  (length (best_matches E job_sentences resume_sentences) <= 5)%nat
  /\ Forall (Spec.aligned E (firstn 5 job_sentences) resume_sentences)
       (best_matches E job_sentences resume_sentences).
Proof.
  unfold best_matches.
  destruct (kept_matches_aligned (firstn 5 job_sentences) resume_sentences) as [H1 H2].
  split; [| exact H2].
  etransitivity; [exact H1 |]. apply firstn_le_length.
Qed.

(** X4.  The semantic result always reports its score twice (the
    contextual relevance is the score).  Without spaCy the score is the
    embedding similarity of the two texts and there is no sentence
    alignment.  When an alignment is reported it has at most five entries,
    one per job sentence among the first five, each pairing the job
    sentence with a resume sentence of greatest similarity, and only
    similarities above 0.3 are kept. *)
Theorem semantic_alignment (resume_text job_text : string) :
  let r := calculate_semantic_match_score E resume_text job_text in
  contextual_relevance r = semantic_match_score r
  /\ (nlp (preprocessor E) = None ->
      semantic_match_score r = calculate_semantic_similarity E resume_text job_text
      /\ sentence_matches r = None)
  /\ (forall ms, sentence_matches r = Some ms ->
        exists analyse resume_doc job_doc,
          nlp (preprocessor E) = Some analyse
          /\ analyse resume_text = Ok resume_doc
          /\ analyse job_text = Ok job_doc
          /\ (length ms <= 5)%nat
          /\ Forall (Spec.aligned E (firstn 5 (sents job_doc)) (sents resume_doc)) ms).
Proof.
  cbv zeta. unfold calculate_semantic_match_score, semantic_match_body.
  destruct (nlp (preprocessor E)) as [analyse |].
  - destruct (analyse resume_text) as [rd | e1] eqn:Hrd; [| cbn; split; [reflexivity |]; split; discriminate].
    destruct (analyse job_text) as [jd | e2] eqn:Hjd; [| cbn; split; [reflexivity |]; split; discriminate].
    cbn -[best_matches].
    split; [reflexivity |]. split; [discriminate |].
    intros ms Hms. exists analyse, rd, jd.
    split; [reflexivity |]. split; [exact Hrd |]. split; [exact Hjd |].
    destruct (doc_nonempty rd && doc_nonempty jd); [| discriminate].
    injection Hms as <-. apply best_matches_aligned.
  - cbn. split; [reflexivity |]. split; [auto | discriminate].
Qed.

End Sentences.

Section Percentage.

Import Matching.
#[local] Open Scope Q_scope.



End Percentage.

Section SentencesExamples.

Import Preprocessor Matching Examples.
#[local] Open Scope Q_scope.

Lemma semantic_alignment_witness :
  semantic_match_score (calculate_semantic_match_score (engine plain) "python" "java")
  = 0.9
  /\ sentence_matches (calculate_semantic_match_score (engine plain) "python" "java")
     = None.
Proof.
  destruct (semantic_alignment (engine plain) "python" "java") as (_ & H & _).
  apply H. reflexivity.
Defined.


End SentencesExamples.

(** ** Skills and certifications as substrings *)

Section Substrings.

Import Preprocessor.

Lemma prefix_app (p a b : string) :
  String.prefix p a = true -> String.prefix p (a ++ b) = true.
Proof.
  revert a. induction p as [| c p IH]; intros a H; [destruct (a ++ b); reflexivity |].
  destruct a as [| d a]; [discriminate |].
  change (String d a ++ b) with (String d (a ++ b)). cbn [String.prefix] in H |- *.
  destruct (ascii_dec c d); [apply IH; exact H | discriminate].
Qed.

Lemma prefix_trans (a b t : string) :
  String.prefix a b = true -> String.prefix b t = true -> String.prefix a t = true.
Proof.
  revert b t. induction a as [| c a IH]; intros b t Hab Hbt;
    [destruct t; reflexivity |].
  destruct b as [| d b]; [discriminate |]. destruct t as [| e t]; [discriminate |].
  cbn in Hab, Hbt |- *.
  destruct (ascii_dec c d) as [-> |]; [| discriminate].
  destruct (ascii_dec d e) as [-> |]; [| discriminate].
  apply (IH b t Hab Hbt).
Qed.

Lemma contains_step (p : string) (c : ascii) (t : string) :
  contains p t = true -> contains p (String c t) = true.
Proof. intros H. cbn [contains]. rewrite H. apply orb_true_r. Qed.

Lemma contains_app_l (p a b : string) :
  contains p a = true -> contains p (a ++ b) = true.
Proof.
  induction a as [| c a IH]; intros H.
  - cbn [contains] in H. rewrite orb_false_r in H.
    destruct p; [| discriminate]. destruct b; reflexivity.
  - cbn [contains] in H. apply orb_true_iff in H as [H | H].
    + change (String c a ++ b) with (String c (a ++ b)). cbn [contains].
      change (String c (a ++ b)) with (String c a ++ b).
      rewrite (prefix_app _ _ _ H). reflexivity.
    + change (String c a ++ b) with (String c (a ++ b)).
      apply contains_step, IH, H.
Qed.

Lemma contains_app_r (p a b : string) :
  contains p b = true -> contains p (a ++ b) = true.
Proof.
  intros H. induction a as [| c a IH]; [exact H |].
  change (String c a ++ b) with (String c (a ++ b)). apply contains_step, IH.
Qed.

Lemma contains_prefix (a b t : string) :
  contains a b = true -> String.prefix b t = true -> contains a t = true.
Proof.
  revert t. induction b as [| c b IH]; intros t Hab Hbt.
  - cbn [contains] in Hab. rewrite orb_false_r in Hab.
    destruct a; [| discriminate]. destruct t; reflexivity.
  - destruct t as [| d t]; [discriminate |]. cbn in Hbt.
    destruct (ascii_dec c d) as [-> |]; [| discriminate].
    cbn [contains] in Hab. apply orb_true_iff in Hab as [Hab | Hab].
    + cbn [contains].
      assert (Hp : String.prefix (String d b) (String d t) = true).
      { cbn. destruct (ascii_dec d d); [exact Hbt | contradiction]. }
      rewrite (prefix_trans _ _ _ Hab Hp). reflexivity.
    + apply contains_step. apply (IH t Hab Hbt).
Qed.

Lemma contains_trans (a b t : string) :
  contains a b = true -> contains b t = true -> contains a t = true.
Proof.
  intros Hab. induction t as [| c t IH]; intros Hbt.
  - cbn [contains] in Hbt. rewrite orb_false_r in Hbt.
    apply (contains_prefix a b "" Hab Hbt).
  - cbn [contains] in Hbt. apply orb_true_iff in Hbt as [H | H].
    + apply (contains_prefix a b _ Hab H).
    + apply contains_step, IH, H.
Qed.

Lemma lower_char_twice (c : ascii) :
  Text.lower_char (Text.lower_char c) = Text.lower_char c.
Proof. destruct c as [[] [] [] [] [] [] [] []]; reflexivity. Qed.

Lemma lower_twice (s : string) : lower (lower s) = lower s.
Proof.
  unfold lower. rewrite list_ascii_of_string_of_list_ascii. f_equal.
  unfold Text.lower. rewrite map_map. apply map_ext. apply lower_char_twice.
Qed.

Lemma list_ascii_app (a b : string) :
  list_ascii_of_string (a ++ b)
  = (list_ascii_of_string a ++ list_ascii_of_string b)%list.
Proof.
  induction a as [| c a IH]; [reflexivity |].
  change (String c a ++ b) with (String c (a ++ b)).
  cbn [list_ascii_of_string app]. f_equal. exact IH.
Qed.

Lemma string_of_list_app (a b : list ascii) :
  string_of_list_ascii (a ++ b)%list
  = string_of_list_ascii a ++ string_of_list_ascii b.
Proof.
  induction a as [| c a IH]; [reflexivity |].
  cbn [app string_of_list_ascii].
  change (String c (string_of_list_ascii a) ++ string_of_list_ascii b)
    with (String c (string_of_list_ascii a ++ string_of_list_ascii b)).
  f_equal. exact IH.
Qed.

Lemma lower_app (a b : string) : lower (a ++ b) = lower a ++ lower b.
Proof.
  unfold lower, Text.lower.
  rewrite list_ascii_app, map_app, string_of_list_app. reflexivity.
Qed.

Lemma extract_technical_skills_elem (text skill : string) :
  skill ∈ extract_technical_skills text
  <-> skill ∈ Spec.vocabulary /\ contains skill (lower text) = true.
Proof.
  unfold extract_technical_skills, Spec.vocabulary.
  rewrite elem_of_elements, elem_of_list_to_set.
  rewrite !list_elem_of_In, !in_flat_map. split.
  - intros ([cat skills] & Hcat & Hin). cbn in Hin.
    apply list_elem_of_In, list_elem_of_filter in Hin as [Hc Hs].
    split; [exists (cat, skills); split; [exact Hcat | apply list_elem_of_In; exact Hs] |].
    apply Is_true_true. exact Hc.
  - intros (([cat skills] & Hcat & Hin) & Hc). exists (cat, skills).
    split; [exact Hcat |]. cbn in Hin |- *. apply list_elem_of_In, list_elem_of_filter.
    split; [apply Is_true_true; exact Hc | apply list_elem_of_In; exact Hin].
Qed.

Lemma extract_certifications_elem (text cert : string) :
  cert ∈ extract_certifications text
  <-> cert ∈ certifications /\ contains cert (lower text) = true.
Proof.
  unfold extract_certifications. rewrite list_elem_of_filter.
  rewrite Is_true_true. tauto.
Qed.

(** X6.  The technical skills of a text are the entries of the skill
    vocabulary that occur in the lower-cased text as substrings, each once.
    So the extraction does not depend on the case of the text, an empty
    text has no skill, and a vocabulary entry that occurs inside a skill
    that was found is found too. *)
Theorem technical_skills_are_substrings (text : string) :
  NoDup (extract_technical_skills text)
  /\ (forall skill,
        skill ∈ extract_technical_skills text
        <-> skill ∈ Spec.vocabulary /\ contains skill (lower text) = true)
  /\ extract_technical_skills (lower text) = extract_technical_skills text
  /\ extract_technical_skills "" = []
  /\ (forall inner outer,
        inner ∈ Spec.vocabulary -> contains inner outer = true ->
        outer ∈ extract_technical_skills text ->
        inner ∈ extract_technical_skills text).
Proof.
  split; [apply extract_technical_skills_NoDup |].
  split; [intros skill; apply extract_technical_skills_elem |].
  split; [unfold extract_technical_skills; rewrite lower_twice; reflexivity |].
  split; [vm_compute; reflexivity |].
  intros inner outer Hv Hio Hout.
  apply extract_technical_skills_elem in Hout as [_ Hc].
  apply extract_technical_skills_elem. split; [exact Hv |].
  apply (contains_trans _ _ _ Hio Hc).
Qed.

(** X7.  The certifications of a text are the entries of the certification
    list that occur in the lower-cased text, in the order of that list and
    each once; the extraction does not depend on the case of the text. *)
Theorem certifications_are_substrings (text : string) :
  NoDup (extract_certifications text)
  /\ sublist (extract_certifications text) certifications
  /\ (forall cert,
        cert ∈ extract_certifications text
        <-> cert ∈ certifications /\ contains cert (lower text) = true)
  /\ extract_certifications (lower text) = extract_certifications text
  /\ extract_certifications "" = [].
Proof.
  split; [apply extract_certifications_NoDup |].
  split; [unfold extract_certifications; apply sublist_filter |].
  split; [intros cert; apply extract_certifications_elem |].
  split; [unfold extract_certifications; rewrite lower_twice; reflexivity |].
  vm_compute. reflexivity.
Qed.

(** X8.  Putting two texts together loses nothing: every skill and every
    certification found in one of the texts is found in their
    concatenation. *)
Theorem concatenation_keeps_what_was_found (a b : string) :
  (forall skill,
     skill ∈ extract_technical_skills a \/ skill ∈ extract_technical_skills b ->
     skill ∈ extract_technical_skills (a ++ b))
  /\ (forall cert,
        cert ∈ extract_certifications a \/ cert ∈ extract_certifications b ->
        cert ∈ extract_certifications (a ++ b)).
Proof.
  split.
  - intros skill H. apply extract_technical_skills_elem. rewrite lower_app.
    destruct H as [H | H]; apply extract_technical_skills_elem in H as [Hv Hc];
      (split; [exact Hv |]); [apply contains_app_l | apply contains_app_r]; exact Hc.
  - intros cert H. apply extract_certifications_elem. rewrite lower_app.
    destruct H as [H | H]; apply extract_certifications_elem in H as [Hv Hc];
      (split; [exact Hv |]); [apply contains_app_l | apply contains_app_r]; exact Hc.
Qed.

End Substrings.

Section SubstringsExamples.

Import Preprocessor Examples.

Lemma technical_skills_are_substrings_witness :
  "java" ∈ extract_technical_skills "Senior JavaScript developer".
Proof.
  destruct (technical_skills_are_substrings "Senior JavaScript developer")
    as (_ & _ & _ & _ & H).
  apply (H "java" "javascript").
  - vm_compute. repeat first [apply list_elem_of_here | apply list_elem_of_further].
  - reflexivity.
  - vm_compute. repeat first [apply list_elem_of_here | apply list_elem_of_further].
Defined.

Lemma concatenation_keeps_what_was_found_witness :
  "pmp" ∈ extract_certifications ("Python developer. " ++ "PMP since 2020").
Proof.
  apply (concatenation_keeps_what_was_found "Python developer. " "PMP since 2020").
  right. vm_compute. apply list_elem_of_here.
Defined.

End SubstringsExamples.

(** ** Normalisation, keywords and thresholds *)

Section Words.

Import Text.

Lemma word_not_space (c : ascii) : is_word c = true -> is_space c = false.
Proof. destruct c as [[] [] [] [] [] [] [] []]; try reflexivity; discriminate. Qed.

Lemma split_from_word (w cur s : list ascii) :
  Forall (fun c => is_space c = false) w ->
  split_from cur (w ++ s) = split_from (rev w ++ cur) s.
Proof.
  intros Hw. revert cur. induction Hw as [| c w Hc _ IH]; intros cur; [reflexivity |].
  cbn [app split_from rev]. rewrite Hc, IH, <- app_assoc. reflexivity.
Qed.

Lemma split_join (P : ascii -> Prop) (ws : list (list ascii)) :
  Forall (Spec.clean_word P) ws -> split (join ws) = ws.
Proof.
  unfold split. induction 1 as [| w ws [Hne Hw] Hws IH]; [reflexivity |].
  assert (Hsp : Forall (fun c => is_space c = false) w).
  { eapply Forall_impl; [exact Hw |]. simpl. tauto. }
  assert (Hrev : exists c l, rev w = c :: l).
  { destruct (rev w) as [| c l] eqn:Hr; [| eauto].
    apply (f_equal (@length ascii)) in Hr. rewrite length_rev in Hr.
    destruct w; [contradiction | discriminate]. }
  destruct Hrev as (c & l & Hr).
  destruct ws as [| w2 ws].
  - cbn [join]. rewrite <- (app_nil_r w) at 1. rewrite split_from_word by exact Hsp.
    rewrite app_nil_r. cbn [split_from]. rewrite Hr, <- Hr, rev_involutive. reflexivity.
  - change (join (w :: w2 :: ws)) with (w ++ " "%char :: join (w2 :: ws))%list.
    rewrite split_from_word by exact Hsp. rewrite app_nil_r.
    cbn [split_from]. change (is_space " "%char) with true. cbn iota.
    rewrite Hr, <- Hr, rev_involutive. f_equal. exact IH.
Qed.

Lemma normal_word_clean (w : list ascii) :
  Spec.normal_word w -> Spec.clean_word (fun _ => True) w.
Proof.
  intros [Hne Hw]. split; [exact Hne |].
  eapply Forall_impl; [exact Hw |]. simpl. intros c [Hc _].
  split; [apply word_not_space; exact Hc | exact I].
Qed.

Lemma split_preprocess_chars (text : list ascii) :
  Forall Spec.normal_word (split (preprocess_chars text)).
Proof.
  destruct (preprocess_chars_words text) as (ws & -> & Hws).
  rewrite (split_join (fun _ => True)); [exact Hws |].
  eapply Forall_impl; [exact Hws | apply normal_word_clean].
Qed.

(** Lengths. *)

Lemma sub_scan_length (r : regex) (repl : list ascii) :
  (length repl <= 1)%nat ->
  forall fuel prev s, (length (sub_scan fuel r repl prev s) <= length s)%nat.
Proof.
  intros Hrepl. induction fuel as [| fuel IH]; intros prev s; [reflexivity |].
  destruct s as [| c s']; [reflexivity |]. cbn [sub_scan].
  destruct (match_here r prev (c :: s')) as [[| m] |].
  - cbn [length]. specialize (IH (Some c) s'). lia.
  - rewrite length_app. 
    specialize (IH (last (firstn (S m) (c :: s'))) (skipn (S m) (c :: s'))).
    rewrite length_skipn in IH. cbn [length] in IH |- *. lia.
  - cbn [length]. specialize (IH (Some c) s'). lia.
Qed.

Lemma re_sub_length (r : regex) (repl s : list ascii) :
  (length repl <= 1)%nat -> (length (re_sub r repl s) <= length s)%nat.
Proof. intros H. apply sub_scan_length. exact H. Qed.

Lemma join_cons_length (w : list ascii) (ws : list (list ascii)) :
  (length (join (w :: ws)) <= length w + 1 + length (join ws))%nat.
Proof.
  destruct ws as [| w2 ws]; [cbn [join]; lia |].
  change (join (w :: w2 :: ws)) with (w ++ " "%char :: join (w2 :: ws))%list.
  rewrite length_app. cbn [length]. lia.
Qed.

Lemma join_split_from_length (s cur : list ascii) :
  (length (join (split_from cur s)) <= length cur + length s)%nat.
Proof.
  revert cur. induction s as [| c s IH]; intros cur.
  - cbn [split_from]. destruct cur as [| a cur]; [cbn; lia |].
    cbn [join]. rewrite length_rev. lia.
  - cbn [split_from]. destruct (is_space c).
    + destruct cur as [| a cur].
      * specialize (IH []). cbn [length] in *. lia.
      * pose proof (join_cons_length (rev (a :: cur)) (split_from [] s)) as H.
        rewrite length_rev in H. specialize (IH []). cbn [length] in *. lia.
    + specialize (IH (c :: cur)). cbn [length] in *. lia.
Qed.

Lemma lstrip_length (s : list ascii) : (length (lstrip s) <= length s)%nat.
Proof.
  induction s as [| c s IH]; [reflexivity |]. cbn [lstrip].
  destruct (is_space c); cbn [length]; lia.
Qed.

Lemma strip_length (s : list ascii) : (length (strip s) <= length s)%nat.
Proof.
  unfold strip. rewrite length_rev.
  etransitivity; [apply lstrip_length |]. rewrite length_rev. apply lstrip_length.
Qed.

Lemma preprocess_chars_length (text : list ascii) :
  (length (preprocess_chars text) <= length text)%nat.
Proof.
  destruct text as [| c text]; [reflexivity |].
  unfold preprocess_chars. cbv zeta.
  etransitivity; [apply strip_length |].
  etransitivity; [apply (join_split_from_length _ []) |]. cbn [length plus].
  repeat (etransitivity; [apply re_sub_length; cbn; lia |]).
  unfold lower. rewrite length_map. reflexivity.
Qed.

Lemma string_length_of_list (l : list ascii) :
  String.length (string_of_list_ascii l) = length l.
Proof. induction l as [| c l IH]; [reflexivity |]. cbn. f_equal. exact IH. Qed.

Lemma list_length_of_string (s : string) :
  length (list_ascii_of_string s) = String.length s.
Proof. induction s as [| c s IH]; [reflexivity |]. cbn. f_equal. exact IH. Qed.

(** X9.  Normalisation never makes an ASCII text longer. *)
Theorem preprocess_text_never_grows (text : string) :
  Spec.ascii_text text ->
  (String.length (preprocess_text text) <= String.length text)%nat.
Proof.
  intros _. unfold preprocess_text. rewrite string_length_of_list, <- list_length_of_string.
  apply preprocess_chars_length.
Qed.

End Words.

Section Keywords.

Import Preprocessor.

Variable P : TextPreprocessor.

(** X10.  Without a spaCy model the keywords of an ASCII text are the
    words of the normalised text that have at least [min_length]
    characters, each once; every keyword is a non-empty run of lower-case
    word characters, and the empty text has no keyword. *)
Theorem keywords_without_spacy (text : string) (min_length : nat) :
  Spec.ascii_text text ->
  nlp P = None ->
  exists keywords,
    extract_keywords P text min_length = Ok keywords
    /\ NoDup keywords
    /\ (forall k, k ∈ keywords
                  <-> k ∈ split (preprocess_text text)
                      /\ (min_length <= String.length k)%nat)
    /\ Forall (fun k => Spec.normal_word (list_ascii_of_string k)) keywords
    /\ (text = "" -> keywords = []).
Proof.
  intros _ Hnlp.
  assert (Hwords : Forall (fun k => Spec.normal_word (list_ascii_of_string k))
                     (split (preprocess_text text))).
  { unfold split, preprocess_text, Text.preprocess_text.
    rewrite list_ascii_of_string_of_list_ascii.
    apply Forall_forall. intros k Hk.
    apply list_elem_of_In, in_map_iff in Hk as (w & <- & Hw).
    rewrite list_ascii_of_string_of_list_ascii.
    pose proof (split_preprocess_chars (list_ascii_of_string text)) as Hall.
    rewrite Forall_forall in Hall. apply Hall, list_elem_of_In, Hw. }
  destruct text as [| c text].
  - exists []. split; [reflexivity |]. split; [constructor |].
    split; [| split; [constructor | reflexivity]].
    intros k. split; [intros H; apply not_elem_of_nil in H; contradiction |].
    intros [H _]. vm_compute in H. apply not_elem_of_nil in H. contradiction.
  - unfold extract_keywords. rewrite Hnlp. cbn [mbind outcome_bind app].
    eexists. split; [reflexivity |]. split; [apply NoDup_elements |].
    assert (Hiff : forall k,
               k ∈ elements (list_to_set (C := gset string)
                               (filter (long_enough min_length)
                                  (split (preprocess_text (String c text)))))
               <-> k ∈ split (preprocess_text (String c text))
                   /\ (min_length <= String.length k)%nat).
    { intros k. rewrite elem_of_elements, elem_of_list_to_set, list_elem_of_filter.
      unfold long_enough. rewrite Is_true_true, Nat.leb_le. tauto. }
    split; [exact Hiff |]. split; [| discriminate].
    apply Forall_forall. intros k Hk. apply Hiff in Hk as [Hk _].
    rewrite Forall_forall in Hwords. apply Hwords, Hk.
Qed.

(** X11.  The fuzzy matcher finds nothing when the candidate has no
    skill, and raising the threshold only removes entries: an entry that
    is kept under a threshold is kept, unchanged, under every lower one. *)
Theorem fuzzy_threshold_is_monotone (resume_skills job_skills : list string)
    (low high : Z) (job_skill : string) (m : fuzzy_match) :
  (low <= high)%Z ->
  fuzzy_match_skills P [] job_skills low = ∅
  /\ (fuzzy_match_skills P resume_skills job_skills high !! job_skill = Some m ->
      fuzzy_match_skills P resume_skills job_skills low !! job_skill = Some m).
Proof.
  intros Hle. split.
  - apply map_eq. intros k. rewrite fuzzy_match_skills_lookup, lookup_empty.
    destruct (decide (k ∈ job_skills)); reflexivity.
  - rewrite !fuzzy_match_skills_lookup.
    destruct (decide (job_skill ∈ job_skills)); [| discriminate].
    unfold kept_match.
    destruct (extractOne (token_sort_ratio P) job_skill resume_skills) as [best |];
      [| discriminate].
    destruct (high <=? snd best)%Z eqn:Hh; [| discriminate].
    apply Z.leb_le in Hh.
    assert (Hl : (low <=? snd best)%Z = true) by (apply Z.leb_le; lia).
    rewrite Hl. auto.
Qed.

End Keywords.

Section KeywordsExamples.

Import Preprocessor Examples.

Lemma keywords_without_spacy_witness :
  exists keywords,
    extract_keywords plain "Python, AWS and a Docker" 2 = Ok keywords
    /\ NoDup keywords
    /\ (forall k, k ∈ keywords
                  <-> k ∈ split (preprocess_text "Python, AWS and a Docker")
                      /\ (2 <= String.length k)%nat)
    /\ Forall (fun k => Spec.normal_word (list_ascii_of_string k)) keywords
    /\ ("Python, AWS and a Docker" = "" -> keywords = []).
Proof.
  apply (keywords_without_spacy plain); [repeat constructor | reflexivity].
Defined.

Lemma preprocess_text_never_grows_witness :
  (String.length (preprocess_text "Call (555) 123 4567, or mail me!") <= 32)%nat.
Proof.
  apply (preprocess_text_never_grows "Call (555) 123 4567, or mail me!").
  repeat constructor.
Defined.

Lemma fuzzy_threshold_is_monotone_witness :
  fuzzy_match_skills plain ["python"; "java"] ["python"; "rust"] 75 !! "python"
  = Some {| matched_skill := "python"; similarity := (inject_Z 100 / 100)%Q |}.
Proof.
  destruct (fuzzy_threshold_is_monotone plain ["python"; "java"] ["python"; "rust"]
              75 90 "python"
              {| matched_skill := "python"; similarity := (inject_Z 100 / 100)%Q |})
    as [_ H]; [lia |].
  apply H. vm_compute. reflexivity.
Defined.

End KeywordsExamples.

(** ** The similarity of embeddings *)

Section UnitInterval.

Import Embedding.
#[local] Open Scope float_scope.

Variable M : SentenceTransformer.

Lemma ltb_leb (a b : float) : (a <? b) = true -> (a <=? b) = true.
Proof.
  rewrite ltb_spec, leb_spec. unfold SFltb, SFleb.
  destruct (SFcompare (Prim2SF a) (Prim2SF b)) as [[] |]; auto; discriminate.
Qed.

Lemma clamped (x : float) :
  (0 <=? py_max 0 (py_min 1 x)) = true /\ (py_max 0 (py_min 1 x) <=? 1) = true.
Proof.
  unfold py_min. destruct (x <? 1) eqn:H1.
  - unfold py_max. destruct (0 <? x) eqn:H0.
    + split; apply ltb_leb; assumption.
    + split; reflexivity.
  - split; reflexivity.
Qed.

Lemma generate_embedding_state (text : string) (st : service_state) :
  resume_collection (snd (generate_embedding M text st)) = resume_collection st
  /\ job_collection (snd (generate_embedding M text st)) = job_collection st.
Proof.
  unfold generate_embedding.
  destruct (Preprocessor.preprocess_text text); [split; reflexivity |].
  destruct (encode M _); split; reflexivity.
Qed.

(** X12.  The semantic similarity of two texts is a number between 0 and
    1, never a NaN, whatever vectors the model returns (NaN and infinite
    components included) and also when the model fails; it is 0 when the
    two embeddings have different lengths.  Computing it leaves both
    collections of the vector store as they are. *)
Theorem similarity_is_a_fraction (text1 text2 : string) (st : service_state) :
  let v := fst (calculate_semantic_similarity M text1 text2 st) in
  let st' := snd (calculate_semantic_similarity M text1 text2 st) in
  (0 <=? v) = true
  /\ (v <=? 1) = true
  /\ (forall e,
        dot (fst (generate_embedding M text1 st)) (fst (generate_embedding M text2 st))
        = Raise e -> v = 0)
  /\ resume_collection st' = resume_collection st
  /\ job_collection st' = job_collection st.
Proof.
  cbv zeta. unfold calculate_semantic_similarity.
  pose proof (generate_embedding_state text1 st) as [Hr1 Hj1].
  pose proof (generate_embedding_vector M text2 (snd (generate_embedding M text1 st)) st)
    as Hv2.
  destruct (generate_embedding M text1 st) as [e1 st1]. cbn [fst snd] in *.
  pose proof (generate_embedding_state text2 st1) as [Hr2 Hj2].
  destruct (generate_embedding M text2 st1) as [e2 st2]. cbn [fst snd] in *.
  subst e2.
  destruct (dot e1 (fst (generate_embedding M text2 st))) as [d | err];
    cbn [mbind outcome_bind try_except].
  - split; [| split; [| split; [discriminate | split; congruence]]].
    + exact (proj1 (clamped _)).
    + exact (proj2 (clamped _)).
  - split; [reflexivity |]. split; [reflexivity |].
    split; [reflexivity | split; congruence].
Qed.

(** X13.  An embedding has the dimension of the model whenever the model
    keeps to it: for an empty text and after a failure of the model it is
    the zero vector of that dimension.  Producing it calls the model at
    most once, on the normalised text, and does not touch the
    collections. *)
Theorem embedding_has_the_dimension (text : string) (st : service_state) :
  (forall t v, encode M t = Ok v -> length v = get_sentence_embedding_dimension M) ->
  let v := fst (generate_embedding M text st) in
  let st' := snd (generate_embedding M text st) in
  length v = get_sentence_embedding_dimension M
  /\ (forall e, encode M (Preprocessor.preprocess_text text) = Raise e ->
                v = zeros (get_sentence_embedding_dimension M))
  /\ (encode_calls st' = encode_calls st
      \/ encode_calls st' = (encode_calls st ++ [Preprocessor.preprocess_text text])%list)
  /\ resume_collection st' = resume_collection st
  /\ job_collection st' = job_collection st.
Proof.
  intros Hdim. cbv zeta.
  pose proof (generate_embedding_state text st) as [Hr Hj].
  split; [| split; [| split; [| split; assumption]]].
  - unfold generate_embedding.
    destruct (Preprocessor.preprocess_text text) as [| c t];
      [apply repeat_length |].
    destruct (encode M (String c t)) as [v | e] eqn:He; cbn [fst].
    + apply (Hdim _ _ He).
    + apply repeat_length.
  - intros e He. unfold generate_embedding.
    destruct (Preprocessor.preprocess_text text) as [| c t]; [reflexivity |].
    rewrite He. reflexivity.
  - unfold generate_embedding.
    destruct (Preprocessor.preprocess_text text) as [| c t]; [left; reflexivity |].
    destruct (encode M (String c t)); right; reflexivity.
Qed.

End UnitInterval.

Section UnitIntervalExamples.

Import Embedding Examples.

Lemma embedding_has_the_dimension_witness :
  length (fst (generate_embedding model "a" fresh)) = 3%nat.
Proof.
  apply (embedding_has_the_dimension model "a" fresh).
  intros t v H. cbn in H. injection H as <-. destruct (String.eqb t "a"); reflexivity.
Defined.

End UnitIntervalExamples.

Section UnevenExamples.

Import Embedding Examples.
#[local] Open Scope float_scope.

Lemma similarity_is_a_fraction_witness :
  fst (calculate_semantic_similarity uneven "a" "b" fresh) = 0.
Proof.
  destruct (similarity_is_a_fraction uneven "a" "b" fresh) as (_ & _ & H & _).
  apply (H "shapes not aligned"). reflexivity.
Defined.

End UnevenExamples.

(** ** Storing and searching embeddings *)

Section SortAsc.

Import Embedding.
#[local] Open Scope Q_scope.

Context {A : Type} (key : A -> Q).

Lemma insert_asc_perm (x : A) (l : list A) : insert_asc key x l ≡ₚ x :: l.
Proof.
  induction l as [| y l IH]; simpl; [reflexivity |].
  destruct (Qlt_le_dec (key y) (key x)); [| reflexivity].
  rewrite IH. apply Permutation_swap.
Qed.

Lemma insert_asc_sorted (x : A) (l : list A) :
  Spec.ascending key l -> Spec.ascending key (insert_asc key x l).
Proof.
  unfold Spec.ascending. induction l as [| y l IH]; intros Hl; simpl.
  - constructor; constructor.
  - apply StronglySorted_inv in Hl as [Hl Hy].
    destruct (Qlt_le_dec (key y) (key x)) as [Hlt | Hle].
    + constructor; [apply IH; exact Hl |].
      rewrite (insert_asc_perm x l). constructor; [lra | exact Hy].
    + constructor; [constructor; assumption |].
      constructor; [exact Hle |].
      eapply Forall_impl; [exact Hy |]. simpl. intros z Hz. lra.
Qed.

Lemma sort_asc_sorted (l : list A) : Spec.ascending key (foldr (insert_asc key) [] l).
Proof.
  induction l as [| x l IH]; simpl; [constructor |].
  apply insert_asc_sorted. exact IH.
Qed.

Lemma ascending_firstn (n : nat) (l : list A) : Spec.ascending key l -> Spec.ascending key (firstn n l).
Proof.
  unfold Spec.ascending. intros H. revert n.
  induction H as [| x l Hl IH Hx]; intros n; [rewrite firstn_nil; constructor |].
  destruct n as [| n]; [constructor |]. cbn [firstn].
  constructor; [apply IH |].
  eapply Forall_forall. intros y Hy. rewrite Forall_forall in Hx. apply Hx.
  apply (subseteq_take n l). exact Hy.
Qed.

End SortAsc.

Section Collections.

Import Embedding.
#[local] Open Scope Q_scope.

Variable M : SentenceTransformer.

Lemma add_lookup (id id' : string) (rec : stored) (c : gmap string stored) :
  let c' := match add id rec c with Ok c' => c' | Raise _ => c end in
  (metadata rec <> [] -> is_Some (c' !! id))
  /\ (metadata rec = [] -> c' = c)
  /\ (id' <> id -> c' !! id' = c !! id')
  /\ (size c <= size c' <= S (size c))%nat.
Proof.
  cbv zeta. unfold add. destruct (metadata rec) as [| m ms].
  - split; [intros H; contradiction |]. split; [reflexivity |].
    split; [reflexivity | lia].
  - split; [| split; [discriminate |]].
    + intros _. destruct (c !! id) as [old |] eqn:Hc;
        [rewrite Hc; eauto | rewrite lookup_insert_eq; eauto].
    + destruct (c !! id) as [old |] eqn:Hc; [split; [reflexivity | lia] |].
      split; [intros Hne; apply lookup_insert_ne; congruence |].
      rewrite map_size_insert, Hc. lia.
Qed.

Lemma store_job_collection (job_id text : string)
    (meta : option (list (string * string))) (st : service_state) :
  job_collection (store_job_embedding M job_id text meta st)
  = match add job_id
            {| embedding := fst (generate_embedding M text st);
               document := String.substring 0 1000 text;
               metadata := default [] meta |}
            (job_collection st) with
    | Ok c => c
    | Raise _ => job_collection st
    end
  /\ resume_collection (store_job_embedding M job_id text meta st)
     = resume_collection st.
Proof.
  unfold store_job_embedding.
  pose proof (generate_embedding_state M text st) as [Hr Hj].
  destruct (generate_embedding M text st) as [e st1]. cbn in Hr, Hj |- *.
  rewrite Hj. destruct (add job_id _ (job_collection st)); cbn; split; assumption || reflexivity.
Qed.

Lemma store_resume_other (resume_id text : string)
    (meta : option (list (string * string))) (st : service_state) :
  job_collection (store_resume_embedding M resume_id text meta st) = job_collection st.
Proof.
  unfold store_resume_embedding.
  pose proof (generate_embedding_state M text st) as [Hr Hj].
  destruct (generate_embedding M text st) as [e st1]. cbn in Hr, Hj |- *.
  destruct (add resume_id _ (resume_collection st1)); cbn; exact Hj.
Qed.

(** X14.  Storing a resume embedding touches at most one record of one
    collection.  With metadata the resume id is present afterwards;
    without metadata (or with an empty dictionary) nothing is stored and
    the collection is as before.  In both cases every other resume keeps
    its record, the collection has grown by at most one record, and the job
    collection is unchanged.  Storing a job embedding does the same to the
    job collection and leaves the resumes alone. *)
Theorem store_touches_one_record (id other text : string)
    (meta : option (list (string * string))) (st : service_state) :
  other <> id ->
  let after_resume := store_resume_embedding M id text meta st in
  let after_job := store_job_embedding M id text meta st in
  (default [] meta <> [] -> is_Some (resume_collection after_resume !! id))
  /\ (default [] meta = [] -> resume_collection after_resume = resume_collection st)
  /\ resume_collection after_resume !! other = resume_collection st !! other
  /\ (size (resume_collection st) <= size (resume_collection after_resume)
      <= S (size (resume_collection st)))%nat
  /\ job_collection after_resume = job_collection st
  /\ (default [] meta <> [] -> is_Some (job_collection after_job !! id))
  /\ (default [] meta = [] -> job_collection after_job = job_collection st)
  /\ job_collection after_job !! other = job_collection st !! other
  /\ (size (job_collection st) <= size (job_collection after_job)
      <= S (size (job_collection st)))%nat
  /\ resume_collection after_job = resume_collection st.
Proof.
  intros Hne. cbv zeta.
  destruct (store_job_collection id text meta st) as [Hj Hjr].
  rewrite store_resume_collection, Hj, Hjr, store_resume_other.
  match goal with |- context [add id ?r (resume_collection st)] =>
    destruct (add_lookup id other r (resume_collection st)) as (H1 & H2 & H3 & H4) end.
  match goal with |- context [add id ?r (job_collection st)] =>
    destruct (add_lookup id other r (job_collection st)) as (H5 & H6 & H7 & H8) end.
  cbv zeta in *. cbn [metadata] in *.
  split; [exact H1 |]. split; [exact H2 |]. split; [apply H3; exact Hne |].
  split; [exact H4 |]. split; [reflexivity |].
  split; [exact H5 |]. split; [exact H6 |]. split; [apply H7; exact Hne |].
  split; [exact H8 | reflexivity].
Qed.

Lemma query_spec (c : gmap string stored) (e : list float) (n : nat) :
  let found := query c e n in
  (length found <= n)%nat
  /\ (length found <= size c)%nat
  /\ Spec.ascending (fun r => snd (fst r)) found
  /\ NoDup (map (fun r => fst (fst r)) found)
  /\ Forall (fun r => exists rec, c !! fst (fst r) = Some rec
                                  /\ snd (fst r) = l2 e (embedding rec)
                                  /\ snd r = metadata rec
                                  /\ 0 <= snd (fst r)) found.
Proof.
  cbv zeta. unfold query.
  set (items := map (item e) (map_to_list c)).
  set (sorted := foldr (insert_asc (fun r => snd (fst r))) [] items).
  assert (Hperm : sorted ≡ₚ items) by apply sort_asc_perm.
  assert (Hlen : length items = size c).
  { unfold items. rewrite length_map. apply length_map_to_list. }
  split; [apply firstn_le_length |].
  split; [rewrite length_firstn, <- Hlen, <- Hperm; lia |].
  split; [apply ascending_firstn, sort_asc_sorted |].
  split.
  - assert (Hnd : NoDup (map (fun r => fst (fst r)) sorted)).
    { rewrite Hperm. unfold items. rewrite map_map. cbn [item fst].
      apply (NoDup_fst_map_to_list c). }
    revert Hnd. generalize sorted. intros l. revert n.
    induction l as [| x l IH]; intros n Hnd; [rewrite firstn_nil; constructor |].
    destruct n as [| n]; [constructor |]. cbn [firstn map] in *.
    apply NoDup_cons in Hnd as [Hx Hl]. apply NoDup_cons. split; [| apply IH, Hl].
    intros Hin. apply Hx. apply list_elem_of_In, in_map_iff in Hin as (y & Hy & Hin).
    apply list_elem_of_In, in_map_iff. exists y. split; [exact Hy |].
    apply list_elem_of_In, (subseteq_take n l), list_elem_of_In. exact Hin.
  - apply Forall_forall. intros r Hr.
    apply (subseteq_take n sorted) in Hr. rewrite Hperm in Hr. unfold items in Hr.
    apply list_elem_of_In, in_map_iff in Hr as ([id rec] & <- & Hin).
    apply list_elem_of_In, elem_of_map_to_list in Hin.
    exists rec. cbn [item fst snd]. repeat split; try assumption. apply l2_nonneg.
Qed.

Lemma similar_spec (c : gmap string stored) (e : list float) (n : nat) :
  let found := map Spec.as_similar (query c e n) in
  (length found <= n)%nat
  /\ (length found <= size c)%nat
  /\ Spec.descending similar_similarity found
  /\ NoDup (map similar_id found)
  /\ Forall (fun r => exists rec,
               c !! similar_id r = Some rec
               /\ similar_similarity r = 1 - l2 e (embedding rec)
               /\ similar_metadata r = metadata rec
               /\ similar_similarity r <= 1) found.
Proof.
  cbv zeta. destruct (query_spec c e n) as (H1 & H2 & H3 & H4 & H5).
  cbv zeta in *. rewrite length_map.
  split; [exact H1 |]. split; [exact H2 |].
  split; [| split].
  - revert H3. unfold Spec.ascending, Spec.descending.
    generalize (query c e n). intros l Hl.
    induction Hl as [| x l Hl IH Hx]; [constructor |]. cbn [map].
    constructor; [exact IH |].
    apply Forall_forall. intros y Hy.
    apply list_elem_of_In, in_map_iff in Hy as (z & <- & Hz).
    rewrite Forall_forall in Hx. specialize (Hx z (proj2 (list_elem_of_In _ _) Hz)).
    cbn [Spec.as_similar similar_similarity]. lra.
  - rewrite map_map. cbn [Spec.as_similar similar_id]. exact H4.
  - apply Forall_forall. intros r Hr'.
    apply list_elem_of_In, in_map_iff in Hr' as (z & <- & Hz).
    rewrite Forall_forall in H5.
    destruct (H5 z (proj2 (list_elem_of_In _ _) Hz)) as (rec & Ha & Hb & Hc & Hd).
    exists rec. cbn [Spec.as_similar similar_id similar_similarity similar_metadata].
    rewrite <- Hb. repeat split; try assumption. lra.
Qed.

Lemma find_similar_resumes_query (job_text : string) (n : nat) (st : service_state) :
  fst (find_similar_resumes M job_text n st)
  = map Spec.as_similar (query (resume_collection st)
                           (fst (generate_embedding M job_text st)) n)
  /\ resume_collection (snd (find_similar_resumes M job_text n st)) = resume_collection st
  /\ job_collection (snd (find_similar_resumes M job_text n st)) = job_collection st.
Proof.
  unfold find_similar_resumes.
  pose proof (generate_embedding_state M job_text st) as [Hr Hj].
  destruct (generate_embedding M job_text st) as [e st1]. cbn [fst snd] in *.
  rewrite Hr. split; [| split; [reflexivity | assumption]].
  apply map_ext. intros [[id d] m]. reflexivity.
Qed.

Lemma find_similar_jobs_query (resume_text : string) (n : nat) (st : service_state) :
  fst (find_similar_jobs M resume_text n st)
  = map Spec.as_similar (query (job_collection st)
                           (fst (generate_embedding M resume_text st)) n)
  /\ resume_collection (snd (find_similar_jobs M resume_text n st)) = resume_collection st
  /\ job_collection (snd (find_similar_jobs M resume_text n st)) = job_collection st.
Proof.
  unfold find_similar_jobs.
  pose proof (generate_embedding_state M resume_text st) as [Hr Hj].
  destruct (generate_embedding M resume_text st) as [e st1]. cbn [fst snd] in *.
  rewrite Hj. split; [| split; [assumption | reflexivity]].
  apply map_ext. intros [[id d] m]. reflexivity.
Qed.

(** X15.  A search for the resumes similar to a job returns at most
    [n_results] results and at most one per stored resume, nearest first:
    the similarities never increase along the list and none exceeds 1.
    Every result names a stored resume, with that resume's metadata and
    with similarity 1 minus its squared distance to the embedding of the
    job text.  The search changes neither collection. *)
Theorem similar_resumes_are_ranked (job_text : string) (n_results : nat)
    (st : service_state) :
  let found := fst (find_similar_resumes M job_text n_results st) in
  let st' := snd (find_similar_resumes M job_text n_results st) in
  let e := fst (generate_embedding M job_text st) in
  (length found <= n_results)%nat
  /\ (length found <= size (resume_collection st))%nat
  /\ Spec.descending similar_similarity found
  /\ NoDup (map similar_id found)
  /\ Forall (fun r => exists rec,
               resume_collection st !! similar_id r = Some rec
               /\ similar_similarity r = 1 - l2 e (embedding rec)
               /\ similar_metadata r = metadata rec
               /\ similar_similarity r <= 1) found
  /\ resume_collection st' = resume_collection st
  /\ job_collection st' = job_collection st.
Proof.
  cbv zeta. destruct (find_similar_resumes_query job_text n_results st) as (-> & Hr & Hj).
  destruct (similar_spec (resume_collection st)
              (fst (generate_embedding M job_text st)) n_results)
    as (H1 & H2 & H3 & H4 & H5).
  repeat (split; [assumption |]). assumption.
Qed.

(** X16.  A search for the jobs similar to a resume reads the job
    collection in the same way: at most [n_results] results, at most one
    per stored job, similarities in decreasing order and at most 1, each
    result a stored job with its metadata and with similarity 1 minus its
    squared distance to the embedding of the resume text; neither
    collection changes. *)
Theorem similar_jobs_are_ranked (resume_text : string) (n_results : nat)
    (st : service_state) :
  let found := fst (find_similar_jobs M resume_text n_results st) in
  let st' := snd (find_similar_jobs M resume_text n_results st) in
  let e := fst (generate_embedding M resume_text st) in
  (length found <= n_results)%nat
  /\ (length found <= size (job_collection st))%nat
  /\ Spec.descending similar_similarity found
  /\ NoDup (map similar_id found)
  /\ Forall (fun r => exists rec,
               job_collection st !! similar_id r = Some rec
               /\ similar_similarity r = 1 - l2 e (embedding rec)
               /\ similar_metadata r = metadata rec
               /\ similar_similarity r <= 1) found
  /\ resume_collection st' = resume_collection st
  /\ job_collection st' = job_collection st.
Proof.
  cbv zeta. destruct (find_similar_jobs_query resume_text n_results st) as (-> & Hr & Hj).
  destruct (similar_spec (job_collection st)
              (fst (generate_embedding M resume_text st)) n_results)
    as (H1 & H2 & H3 & H4 & H5).
  repeat (split; [assumption |]). assumption.
Qed.

End Collections.

Section CollectionsExamples.

Import Embedding Examples.

Lemma store_touches_one_record_witness :
  is_Some (resume_collection (store_resume_embedding model "r1" "a" (meta_of "r1") fresh)
             !! "r1")
  /\ resume_collection (store_resume_embedding model "r1" "a" None fresh) = ∅.
Proof.
  destruct (store_touches_one_record model "r1" "r2" "a" (meta_of "r1") fresh)
    as (H1 & _); [discriminate |].
  destruct (store_touches_one_record model "r1" "r2" "a" None fresh)
    as (_ & H2 & _); [discriminate |].
  split; [apply H1; discriminate | apply H2; reflexivity].
Defined.

End CollectionsExamples.

(** ** The document parser *)

Section Cleaning.

Import Text DocumentParser.

(** The repetition [\s+] takes the white space at the head of the text,
    all of it. *)
Lemma spaces_iterate (fuel i : nat) (prev : option ascii) (s : list ascii) :
  (length s <= fuel)%nat ->
  iterate (rmatch (Class is_space)) 1 None (fun _ rest => Some (length rest))
    fuel i prev s
  = if (1 <=? i + (length s - length (lstrip s)))%nat
    then Some (length (lstrip s)) else None.
Proof.
  revert i prev s. induction fuel as [| fuel IH]; intros i prev s Hlen.
  - destruct s; [| simpl in Hlen; lia]. cbn [iterate lstrip length Nat.sub].
    rewrite Nat.add_0_r. reflexivity.
  - cbn [iterate below]. destruct s as [| c s'].
    + cbn [rmatch lstrip length Nat.sub]. rewrite Nat.add_0_r. reflexivity.
    + cbn [rmatch lstrip]. simpl in Hlen. destruct (is_space c) eqn:Hc.
      * destruct (Nat.ltb_spec (length s') (length (c :: s'))) as [_ | H];
          [| simpl in H; lia].
        rewrite IH by lia. pose proof (lstrip_length s') as Hl.
        destruct (Nat.leb_spec 1 (S i + (length s' - length (lstrip s')))); [| lia].
        destruct (Nat.leb_spec 1 (i + (length (c :: s') - length (lstrip s'))));
          [reflexivity | simpl in *; lia].
      * rewrite Nat.sub_diag, Nat.add_0_r. reflexivity.
Qed.

Lemma match_here_spaces (prev : option ascii) (s : list ascii) :
  match_here re_spaces prev s
  = if (1 <=? length s - length (lstrip s))%nat
    then Some (length s - length (lstrip s))%nat else None.
Proof.
  unfold match_here, re_spaces, plus. cbn [rmatch].
  rewrite spaces_iterate by lia. cbn [Nat.add].
  destruct (1 <=? length s - length (lstrip s))%nat; reflexivity.
Qed.

(** The white-space step copies a word. *)
Lemma spaces_scan_word (w rest : list ascii) :
  Forall (fun c => is_space c = false) w ->
  (forall fuel prev, sub_scan fuel re_spaces [" "%char] prev rest = rest) ->
  forall fuel prev, sub_scan fuel re_spaces [" "%char] prev (w ++ rest) = (w ++ rest)%list.
Proof.
  intros Hw Hrest. induction Hw as [| c w Hc _ IH]; intros fuel prev; [apply Hrest |].
  destruct fuel as [| fuel]; [reflexivity |].
  cbn [app sub_scan]. rewrite match_here_spaces. cbn [lstrip]. rewrite Hc.
  rewrite Nat.sub_diag. cbn [Nat.leb]. f_equal. apply IH.
Qed.

(** ... and a single space before a word. *)
Lemma spaces_scan_space (c : ascii) (rest : list ascii) :
  is_space c = false ->
  (forall fuel prev, sub_scan fuel re_spaces [" "%char] prev (c :: rest) = c :: rest) ->
  forall fuel prev,
    sub_scan fuel re_spaces [" "%char] prev (" "%char :: c :: rest)
    = " "%char :: c :: rest.
Proof.
  intros Hc Hrest fuel prev. destruct fuel as [| fuel]; [reflexivity |].
  cbn [sub_scan]. rewrite match_here_spaces.
  change (lstrip (" "%char :: c :: rest)) with (lstrip (c :: rest)).
  cbn [lstrip]. rewrite Hc.
  replace (length (" "%char :: c :: rest) - length (c :: rest))%nat with 1%nat
    by (cbn [length]; lia).
  cbn [Nat.leb]. change (skipn 1 (" "%char :: c :: rest)) with (c :: rest).
  cbn [app]. f_equal. apply Hrest.
Qed.

Lemma join_head (P : ascii -> Prop) (w : list ascii) (ws : list (list ascii)) :
  Forall (Spec.clean_word P) (w :: ws) ->
  exists c l, join (w :: ws) = c :: l /\ is_space c = false.
Proof.
  intros Hall. inversion Hall as [| ? ? [Hne Hw] _]; subst.
  destruct w as [| c w]; [contradiction |].
  inversion Hw as [| ? ? [Hc _] _]; subst.
  destruct ws; eexists _, _; (split; [reflexivity | exact Hc]).
Qed.

Lemma spaces_scan_join (P : ascii -> Prop) (ws : list (list ascii)) :
  Forall (Spec.clean_word P) ws ->
  forall fuel prev, sub_scan fuel re_spaces [" "%char] prev (join ws) = join ws.
Proof.
  induction 1 as [| w ws [Hne Hw] Hws IH]; intros fuel prev; [apply sub_scan_nil |].
  assert (Hsp : Forall (fun c => is_space c = false) w).
  { eapply Forall_impl; [exact Hw |]. simpl. tauto. }
  destruct ws as [| w2 ws].
  - cbn [join]. rewrite <- (app_nil_r w). apply spaces_scan_word; [exact Hsp |].
    intros. apply sub_scan_nil.
  - change (join (w :: w2 :: ws)) with (w ++ " "%char :: join (w2 :: ws))%list.
    apply spaces_scan_word; [exact Hsp |].
    destruct (join_head P w2 ws Hws) as (c & l & Heq & Hc).
    rewrite Heq in IH |- *. apply spaces_scan_space; assumption.
Qed.

(** A class that no character of the text is in leaves the text alone. *)
Lemma class_scan_copy (p : ascii -> bool) (repl : list ascii) (s : list ascii) :
  Forall (fun c => p c = false) s ->
  forall fuel prev, sub_scan fuel (Class p) repl prev s = s.
Proof.
  induction 1 as [| c s Hc _ IH]; intros fuel prev; [apply sub_scan_nil |].
  destruct fuel as [| fuel]; [reflexivity |].
  cbn [sub_scan]. rewrite match_here_class, Hc. f_equal. apply IH.
Qed.

(** After the replacement of a class by a space, no character of the
    class is left. *)
Lemma class_scan_clears (p : ascii -> bool) (fuel : nat) (prev : option ascii)
    (s : list ascii) :
  p " "%char = false -> (length s <= fuel)%nat ->
  Forall (fun c => p c = false) (sub_scan fuel (Class p) [" "%char] prev s).
Proof.
  intros Hsp. revert prev s. induction fuel as [| fuel IH]; intros prev s Hlen.
  - destruct s; [constructor | simpl in Hlen; lia].
  - destruct s as [| c s']; [constructor |].
    cbn [sub_scan]. rewrite match_here_class. simpl in Hlen.
    destruct (p c) eqn:Hc.
    + change (skipn 1 (c :: s')) with s'. cbn [app].
      constructor; [exact Hsp |]. apply IH. lia.
    + constructor; [exact Hc |]. apply IH. lia.
Qed.

Lemma special_is_not_kept (c : ascii) :
  negb (is_word c || is_space c || is_kept_punctuation c) = false ->
  is_space c = false -> Spec.kept c.
Proof.
  unfold Spec.kept. intros H Hs. apply negb_false_iff in H.
  rewrite Hs, orb_false_r in H. exact H.
Qed.

Lemma kept_is_not_special (c : ascii) :
  c = " "%char \/ Spec.kept c ->
  negb (is_word c || is_space c || is_kept_punctuation c) = false.
Proof.
  unfold Spec.kept. intros [-> | H]; [reflexivity |].
  apply negb_false_iff. destruct (is_word c), (is_kept_punctuation c), (is_space c);
    try reflexivity; discriminate.
Qed.

Lemma clean_chars_words (text : list ascii) :
  exists words,
    clean_chars text = join words /\ Forall (Spec.clean_word Spec.kept) words.
Proof.
  destruct text as [| c0 text]; [exists []; split; [reflexivity | constructor] |].
  set (s := re_sub re_special [" "%char] (re_sub re_spaces [" "%char] (c0 :: text))).
  assert (Hs : Forall (fun c => negb (is_word c || is_space c || is_kept_punctuation c)
                                = false) s).
  { unfold s, re_sub at 1, re_special. apply class_scan_clears; [reflexivity | lia]. }
  pose proof (split_from_clean _ s [] Hs (List.Forall_nil _)) as Hw.
  assert (Hk : Forall (Spec.clean_word Spec.kept) (split s)).
  { eapply Forall_impl; [exact Hw |]. intros w [Hne Hall]. split; [exact Hne |].
    eapply Forall_impl; [exact Hall |]. simpl. intros c [Hsp Hc].
    split; [exact Hsp | apply special_is_not_kept; assumption]. }
  exists (split s). split; [| exact Hk].
  change (clean_chars (c0 :: text)) with (strip (join (split s))).
  apply (strip_join _ _ Hk).
Qed.

Lemma clean_chars_join (ws : list (list ascii)) :
  Forall (Spec.clean_word Spec.kept) ws -> clean_chars (join ws) = join ws.
Proof.
  intros Hws.
  assert (H : strip (join (split (re_sub re_special [" "%char]
                                    (re_sub re_spaces [" "%char] (join ws)))))
              = join ws).
  { unfold re_sub at 2. rewrite (spaces_scan_join _ ws Hws).
    unfold re_sub, re_special. rewrite class_scan_copy.
    - rewrite (split_join _ ws Hws). apply (strip_join _ ws Hws).
    - apply (join_Forall (fun c => negb (is_word c || is_space c || is_kept_punctuation c)
                                   = false)); [reflexivity |].
      eapply Forall_impl; [exact Hws |]. intros w [_ Hall].
      eapply Forall_impl; [exact Hall |]. simpl. intros c [_ Hc].
      apply kept_is_not_special. right. exact Hc. }
  unfold clean_chars. destruct (join ws) eqn:E; [reflexivity |].
  exact H.
Qed.

Lemma clean_chars_length (text : list ascii) :
  (length (clean_chars text) <= length text)%nat.
Proof.
  destruct text as [| c text]; [reflexivity |].
  unfold clean_chars. cbv zeta.
  etransitivity; [apply strip_length |].
  etransitivity; [apply (join_split_from_length _ []) |]. cbn [length plus].
  etransitivity; [apply re_sub_length; cbn; lia |].
  apply re_sub_length. cbn. lia.
Qed.

Lemma clean_text_twice (text : string) : _clean_text (_clean_text text) = _clean_text text.
Proof.
  unfold _clean_text. rewrite list_ascii_of_string_of_list_ascii.
  destruct (clean_chars_words (list_ascii_of_string text)) as (ws & -> & Hws).
  rewrite (clean_chars_join ws Hws). reflexivity.
Qed.

Lemma clean_text_chars (text : string) :
  Forall (fun c => c = " "%char \/ Spec.kept c) (list_ascii_of_string (_clean_text text)).
Proof.
  unfold _clean_text. rewrite list_ascii_of_string_of_list_ascii.
  destruct (clean_chars_words (list_ascii_of_string text)) as (ws & -> & Hws).
  apply join_Forall; [left; reflexivity |].
  eapply Forall_impl; [exact Hws |]. intros w [_ Hall].
  eapply Forall_impl; [exact Hall |]. simpl. intros c [_ Hc]. right. exact Hc.
Qed.

(** X17.  The text that [_clean_text] returns is a sequence of non-empty
    words separated by single spaces, without leading or trailing space;
    every character of a word is a letter, a digit, an underscore or one of
    [. , ; : ! ? - ( ) [ ]].  It is never longer than the input, and
    cleaning it again changes nothing. *)
Theorem clean_text_normal_form (text : string) :
  let out := _clean_text text in
  (exists words,
     list_ascii_of_string out = join words
     /\ Forall (Spec.clean_word Spec.kept) words)
  /\ Forall (fun c => c = " "%char \/ Spec.kept c) (list_ascii_of_string out)
  /\ (String.length out <= String.length text)%nat
  /\ _clean_text out = out.
Proof.
  cbv zeta. split; [| split; [| split]].
  - unfold _clean_text. rewrite list_ascii_of_string_of_list_ascii.
    apply clean_chars_words.
  - apply clean_text_chars.
  - unfold _clean_text. rewrite string_length_of_list, <- list_length_of_string.
    apply clean_chars_length.
  - apply clean_text_twice.
Qed.

End Cleaning.

Section Extraction.

Import Text DocumentParser Preprocessor.

Variable F : Files.

Lemma extract_text_cases (file_path : string) :
  extract_text F file_path = ""
  \/ exists raw, extract_text F file_path = _clean_text raw.
Proof.
  unfold extract_text, extract_text_from_pdf, extract_text_from_docx.
  destruct (file_exists F file_path); cbn [negb]; [| left; reflexivity].
  destruct (String.eqb _ ".pdf").
  - destruct (fitz_open F file_path); cbn; [right; eexists; reflexivity | left; reflexivity].
  - destruct (String.eqb _ ".docx"); [| left; reflexivity].
    destruct (Document F file_path); cbn; [right; eexists; reflexivity | left; reflexivity].
Qed.

(** X18.  [extract_text] returns the empty text for a file that does not
    exist, for an extension other than [.pdf] and [.docx] (compared in
    lower case) and when the reader raises; a [.pdf] file goes to the PDF
    reader and a [.docx] file to the DOCX reader, and their text is
    cleaned.  Whatever it returns is clean already: [_clean_text] leaves it
    unchanged. *)
Theorem extracted_text_is_clean (file_path : string) :
  let file_extension := lower (snd (Path.splitext file_path)) in
  (file_exists F file_path = false -> extract_text F file_path = "")
  /\ (file_extension <> ".pdf" -> file_extension <> ".docx" ->
      extract_text F file_path = "")
  /\ (file_exists F file_path = true -> file_extension = ".pdf" ->
      extract_text F file_path = extract_text_from_pdf F file_path)
  /\ (file_exists F file_path = true -> file_extension = ".docx" ->
      extract_text F file_path = extract_text_from_docx F file_path)
  /\ (forall e, fitz_open F file_path = Raise e ->
                extract_text_from_pdf F file_path = "")
  /\ (forall e, Document F file_path = Raise e ->
                extract_text_from_docx F file_path = "")
  /\ _clean_text (extract_text F file_path) = extract_text F file_path.
Proof.
  cbv zeta. split; [| split; [| split; [| split; [| split; [| split]]]]].
  - intros H. unfold extract_text. rewrite H. reflexivity.
  - intros H1 H2. unfold extract_text. destruct (negb _); [reflexivity |].
    apply String.eqb_neq in H1, H2. rewrite H1, H2. reflexivity.
  - intros H1 H2. unfold extract_text. rewrite H1, H2. reflexivity.
  - intros H1 H2. unfold extract_text. rewrite H1, H2. reflexivity.
  - intros e H. unfold extract_text_from_pdf. rewrite H. reflexivity.
  - intros e H. unfold extract_text_from_docx. rewrite H. reflexivity.
  - destruct (extract_text_cases file_path) as [-> | [raw ->]]; [reflexivity |].
    apply clean_text_twice.
Qed.

End Extraction.

(** ** Skills in parsed text *)

Section ParsedSkills.

Import Text DocumentParser Preprocessor.

Lemma prefix_chars (a b : string) (c : ascii) :
  String.prefix a b = true ->
  In c (list_ascii_of_string a) -> In c (list_ascii_of_string b).
Proof.
  revert b. induction a as [| x a IH]; intros b Hp Hin; [destruct Hin |].
  destruct b as [| y b]; [discriminate |]. cbn [String.prefix] in Hp.
  destruct (Ascii.ascii_dec x y) as [<- | Hne]; [| discriminate].
  cbn [list_ascii_of_string] in *. destruct Hin as [-> | Hin]; [left; reflexivity |].
  right. apply IH; assumption.
Qed.

(** A substring has no character of its own. *)
Lemma contains_chars (needle haystack : string) (c : ascii) :
  contains needle haystack = true ->
  In c (list_ascii_of_string needle) -> In c (list_ascii_of_string haystack).
Proof.
  induction haystack as [| y h IH]; intros Hc Hin.
  - cbn [contains] in Hc. rewrite orb_false_r in Hc.
    destruct needle; [destruct Hin | discriminate].
  - cbn [contains] in Hc. apply orb_true_iff in Hc as [Hp | Hc].
    + apply (prefix_chars needle); assumption.
    + cbn [list_ascii_of_string]. right. apply IH; assumption.
Qed.

Lemma lower_char_kept (c : ascii) : Spec.kept c -> Spec.kept (lower_char c).
Proof.
  unfold Spec.kept.
  destruct c as [[] [] [] [] [] [] [] []]; intros H; try reflexivity; discriminate.
Qed.

(** In a text of kept characters and spaces, a skill that is found is made
    of kept characters and spaces. *)
Lemma found_skill_chars (t skill : string) :
  Forall (fun c => c = " "%char \/ Spec.kept c) (list_ascii_of_string t) ->
  skill ∈ extract_technical_skills t ->
  Forall (fun c => c = " "%char \/ Spec.kept c) (list_ascii_of_string skill).
Proof.
  intros Ht Hin. apply extract_technical_skills_elem in Hin as [_ Hc].
  apply Forall_forall. intros c Hcin. apply list_elem_of_In in Hcin.
  apply (contains_chars _ _ c Hc) in Hcin.
  unfold lower in Hcin. rewrite list_ascii_of_string_of_list_ascii in Hcin.
  apply in_map_iff in Hcin as (d & <- & Hd).
  rewrite Forall_forall in Ht.
  destruct (Ht d (proj2 (list_elem_of_In _ _) Hd)) as [-> | Hk].
  - left. reflexivity.
  - right. apply lower_char_kept. exact Hk.
Qed.

Lemma symbol_skill_not_found (t : string) :
  Forall (fun c => c = " "%char \/ Spec.kept c) (list_ascii_of_string t) ->
  ("c++" ∉ extract_technical_skills t) /\ ("c#" ∉ extract_technical_skills t).
Proof.
  intros Ht. split; intros Hin; apply (found_skill_chars t _ Ht) in Hin;
    apply Forall_cons in Hin as [_ Hin]; apply Forall_cons in Hin as [[H | H] _];
    discriminate.
Qed.

Variable F : Files.

Lemma extract_text_chars (file_path : string) :
  Forall (fun c => c = " "%char \/ Spec.kept c)
    (list_ascii_of_string (extract_text F file_path)).
Proof.
  destruct (extract_text_cases F file_path) as [-> | [raw ->]]; [constructor |].
  apply clean_text_chars.
Qed.

(** X19.  Text that went through [_clean_text], and so every text that
    [extract_text] returns, never yields the skills [c++] and [c#]: the
    characters [+] and [#] are replaced by spaces before the skills are
    looked up.  Every skill found in such a text is made of letters,
    digits, underscores, spaces and the punctuation that is kept
    ([node.js], [scikit-learn]).  In the raw text [C++] is found. *)
Theorem symbol_skills_are_lost (file_path text : string) :
  (forall skill,
     skill ∈ extract_technical_skills (_clean_text text)
     \/ skill ∈ extract_technical_skills (extract_text F file_path) ->
     skill ∈ Spec.vocabulary /\ skill <> "c++" /\ skill <> "c#"
     /\ Forall (fun c => c = " "%char \/ Spec.kept c) (list_ascii_of_string skill))
  /\ "c++" ∈ extract_technical_skills "C++ and C#"
  /\ "c#" ∈ extract_technical_skills "C++ and C#"
  /\ extract_technical_skills (_clean_text "C++ and C#") = []
  /\ "node.js" ∈ extract_technical_skills (_clean_text "Node.js (5 years)").
Proof.
  split.
  - intros skill Hin.
    assert (Hv : skill ∈ Spec.vocabulary).
    { destruct Hin as [Hin | Hin]; apply extract_technical_skills_elem in Hin; tauto. }
    split; [exact Hv |].
    assert (Hchars : exists t,
               Forall (fun c => c = " "%char \/ Spec.kept c) (list_ascii_of_string t)
               /\ skill ∈ extract_technical_skills t).
    { destruct Hin as [Hin | Hin]; eexists; (split; [| exact Hin]);
        [apply clean_text_chars | apply extract_text_chars]. }
    destruct Hchars as (t & Ht & Hin').
    destruct (symbol_skill_not_found t Ht) as [H1 H2].
    split; [intros ->; contradiction |]. split; [intros ->; contradiction |].
    apply (found_skill_chars t); assumption.
  - split; [| split; [| split]].
    + apply extract_technical_skills_elem. split; [| reflexivity].
      vm_compute. repeat constructor.
    + apply extract_technical_skills_elem. split; [| reflexivity].
      vm_compute. repeat constructor.
    + vm_compute. reflexivity.
    + apply extract_technical_skills_elem. split; [| reflexivity].
      vm_compute. repeat constructor.
Qed.

End ParsedSkills.

(** ** Uploads *)

Section Paths.

Import Path.

Lemma rfind_app (ch : ascii) (a b : list ascii) :
  rfind ch (a ++ b)
  = match rfind ch b with
    | Some i => Some (length a + i)%nat
    | None => rfind ch a
    end.
Proof.
  induction a as [| c a IH]; [cbn; destruct (rfind ch b); reflexivity |].
  cbn [app rfind]. rewrite IH. destruct (rfind ch b); reflexivity.
Qed.

Lemma rfind_lt (ch : ascii) (s : list ascii) (i : nat) :
  rfind ch s = Some i -> (i < length s)%nat.
Proof.
  revert i. induction s as [| c s IH]; intros i H; [discriminate |].
  cbn [rfind] in H. destruct (rfind ch s) as [j |].
  - injection H as <-. specialize (IH j eq_refl). cbn [length]. lia.
  - destruct (Text.is_char ch c); [| discriminate]. injection H as <-. cbn [length]. lia.
Qed.

Lemma rfind_head (ch : ascii) (s : list ascii) (i : nat) :
  rfind ch s = Some i -> exists rest, skipn i s = ch :: rest.
Proof.
  revert i. induction s as [| c s IH]; intros i H; [discriminate |].
  cbn [rfind] in H. destruct (rfind ch s) as [j |].
  - injection H as <-. apply (IH j eq_refl).
  - destruct (Text.is_char ch c) eqn:Hc; [| discriminate]. injection H as <-.
    exists s. cbn [skipn]. f_equal. unfold Text.is_char, Text.code in Hc.
    apply N.eqb_eq in Hc. rewrite <- (ascii_N_embedding c), <- Hc.
    apply ascii_N_embedding.
Qed.

Lemma skipn_past (pre l : list ascii) (n : nat) :
  skipn (length pre + n) (pre ++ l) = skipn n l.
Proof. induction pre as [| c pre IH]; [reflexivity | exact IH]. Qed.

(** An extension starts with the dot. *)
Lemma splitext_dot (p : list ascii) :
  snd (splitext_chars p) = [] \/ exists rest, snd (splitext_chars p) = "."%char :: rest.
Proof.
  unfold splitext_chars. destruct (rfind "."%char p) as [d |] eqn:Hd; [| left; reflexivity].
  destruct (_ && _); [| left; reflexivity].
  right. cbn [snd]. apply (rfind_head _ _ _ Hd).
Qed.

(** What comes before the file name does not change a (non-empty)
    extension. *)
Lemma splitext_prefix (pre name : list ascii) :
  snd (splitext_chars name) <> [] ->
  snd (splitext_chars (pre ++ name)) = snd (splitext_chars name).
Proof.
  unfold splitext_chars. rewrite !rfind_app.
  destruct (rfind "."%char name) as [d |] eqn:Hd; [| intros H; contradiction H; reflexivity].
  destruct (rfind "/"%char name) as [i |] eqn:Hi.
  - destruct ((S i <=? d)%nat && _) eqn:Hc; [| intros H; contradiction H; reflexivity].
    intros _. apply andb_true_iff in Hc as [Hle Hex]. apply Nat.leb_le in Hle.
    replace (S (length pre + i) <=? length pre + d)%nat with true
      by (symmetry; apply Nat.leb_le; lia).
    replace (length pre + d - S (length pre + i))%nat with (d - S i)%nat by lia.
    replace (S (length pre + i)) with (length pre + S i)%nat by lia.
    rewrite !skipn_past. cbn [andb]. rewrite Hex. reflexivity.
  - destruct ((0 <=? d)%nat && _) eqn:Hc; [| intros H; contradiction H; reflexivity].
    intros _. apply andb_true_iff in Hc as [_ Hex].
    rewrite Nat.sub_0_r in Hex. cbn [skipn] in Hex.
    set (fi := match rfind "/"%char pre with Some s => S s | None => 0%nat end).
    assert (Hfi : (fi <= length pre)%nat).
    { unfold fi. destruct (rfind "/"%char pre) as [j |] eqn:Hj; [| lia].
      apply rfind_lt in Hj. lia. }
    replace (fi <=? length pre + d)%nat with true by (symmetry; apply Nat.leb_le; lia).
    rewrite (skipn_app fi), firstn_app, length_skipn.
    replace (length pre + d - fi - (length pre - fi))%nat with d by lia.
    replace (fi - length pre)%nat with 0%nat by lia. cbn [skipn andb].
    rewrite existsb_app, Hex, orb_true_r.
    rewrite skipn_past. reflexivity.
Qed.

End Paths.

Section Uploads.

Import Path DocumentParser Upload Preprocessor.

Lemma splitext_prefix_string (pre name : string) :
  snd (splitext name) <> "" ->
  snd (splitext (pre ++ name)) = snd (splitext name).
Proof.
  unfold splitext. cbn [snd]. intros H. rewrite list_ascii_app.
  rewrite splitext_prefix; [reflexivity |].
  intros Heq. apply H. rewrite Heq. reflexivity.
Qed.

Lemma append_assoc (a b c : string) : (a ++ b) ++ c = a ++ b ++ c.
Proof.
  induction a as [| x a IH]; [reflexivity |].
  change ((String x a ++ b) ++ c) with (String x ((a ++ b) ++ c)).
  rewrite IH. reflexivity.
Qed.

(** The file name is the end of the path of the saved file. *)
Lemma upload_path_suffix (folder timestamp name : string) :
  exists pre, upload_path folder timestamp name = pre ++ name.
Proof.
  unfold upload_path, join.
  destruct (String.prefix "/" _); [| destruct (_ || _)].
  - exists (timestamp ++ "_"). rewrite append_assoc. reflexivity.
  - exists (folder ++ timestamp ++ "_"). rewrite !append_assoc. reflexivity.
  - exists (folder ++ "/" ++ timestamp ++ "_"). rewrite !append_assoc. reflexivity.
Qed.

(** A lower-cased extension whose tail is [t] is a dot followed by [t]. *)
Lemma extension_tail (name t : string) :
  t <> "" ->
  match lower (snd (splitext name)) with String _ rest => rest | EmptyString => "" end = t ->
  lower (snd (splitext name)) = String "."%char t /\ snd (splitext name) <> "".
Proof.
  unfold splitext. cbn [snd]. intros Hne.
  destruct (splitext_dot (list_ascii_of_string name)) as [-> | [rest ->]].
  - cbn. intros <-. contradiction Hne. reflexivity.
  - unfold lower. rewrite list_ascii_of_string_of_list_ascii.
    cbn [Text.lower map string_of_list_ascii]. intros <-.
    split; [reflexivity | discriminate].
Qed.

Variable F : Files.

(** X20.  With the default setting (or any setting that allows only [pdf]
    and [docx]) a file that [validate_file] accepts has a size within the
    limit and a name, and the path under which it is saved, whatever the
    folder and the time stamp, has the extension [.pdf] or [.docx] in
    lower case: [extract_text] hands the saved file to the PDF or to the
    DOCX reader and never takes its branch for unsupported formats.
    [validate_file] returns nothing but [True]. *)
Theorem accepted_upload_reaches_a_reader (max_file_size : Z)
    (allowed_extensions : list string) (file : UploadFile)
    (folder timestamp : string) (b : bool) :
  (forall e, e ∈ allowed_extensions -> e = "pdf" \/ e = "docx") ->
  validate_file max_file_size allowed_extensions file = inr b ->
  exists name n,
    b = true /\ filename file = Some name /\ size file = Some n
    /\ (n <= max_file_size)%Z
    /\ let file_path := upload_path folder timestamp name in
       let file_extension := lower (snd (splitext file_path)) in
       (file_extension = ".pdf" \/ file_extension = ".docx")
       /\ (file_exists F file_path = true ->
           extract_text F file_path
           = if String.eqb file_extension ".pdf"
             then extract_text_from_pdf F file_path
             else extract_text_from_docx F file_path).
Proof.
  intros Hallowed. unfold validate_file.
  destruct (size file) as [n |]; [| discriminate].
  destruct (Z.ltb_spec max_file_size n) as [| Hle]; [discriminate |].
  destruct (filename file) as [name |]; [| discriminate].
  destruct (bool_decide _) eqn:Hin; [| discriminate].
  intros [= <-]. apply bool_decide_eq_true in Hin.
  exists name, n. repeat (split; [reflexivity || assumption |]).
  cbv zeta.
  destruct (upload_path_suffix folder timestamp name) as [pre ->].
  assert (Hext : lower (snd (splitext name)) = ".pdf"
                 \/ lower (snd (splitext name)) = ".docx").
  { destruct (Hallowed _ Hin) as [H | H];
      apply extension_tail in H; try discriminate; tauto. }
  assert (Hne : snd (splitext name) <> "").
  { intros H. rewrite H in Hext. destruct Hext; discriminate. }
  rewrite (splitext_prefix_string pre name Hne).
  split; [exact Hext |].
  intros Hex. unfold extract_text. rewrite Hex. cbn [negb].
  rewrite (splitext_prefix_string pre name Hne).
  destruct Hext as [-> | ->]; reflexivity.
Qed.

End Uploads.

Section UploadsExamples.

Import Path DocumentParser Upload Preprocessor Examples.

Lemma accepted_upload_reaches_a_reader_witness :
  exists name n,
    true = true
    /\ Some "cv.PDF" = Some name /\ Some 2048%Z = Some n
    /\ (n <= Settings.max_file_size)%Z
    /\ let file_path := upload_path "uploads/resumes" "20240101_120000" name in
       let file_extension := lower (snd (splitext file_path)) in
       (file_extension = ".pdf" \/ file_extension = ".docx")
       /\ (file_exists disk file_path = true ->
           extract_text disk file_path
           = if String.eqb file_extension ".pdf"
             then extract_text_from_pdf disk file_path
             else extract_text_from_docx disk file_path).
Proof.
  apply (accepted_upload_reaches_a_reader disk Settings.max_file_size
           Settings.allowed_extensions
           {| filename := Some "cv.PDF"; size := Some 2048%Z |}
           "uploads/resumes" "20240101_120000" true).
  - intros e He. apply list_elem_of_In in He.
    destruct He as [<- | [<- | []]]; [left | right]; reflexivity.
  - vm_compute. reflexivity.
Defined.

End UploadsExamples.

(** ** Settings and text similarity *)

Section Extensions.

Import Text Settings.

Lemma split_on_last (sep : ascii) (w : list ascii) :
  Forall (fun c => is_char sep c = false) w -> split_on sep w = [w].
Proof.
  induction 1 as [| c w Hc _ IH]; [reflexivity |].
  cbn [split_on]. rewrite Hc, IH. reflexivity.
Qed.

Lemma split_on_word (sep : ascii) (w rest : list ascii) :
  Forall (fun c => is_char sep c = false) w ->
  split_on sep (w ++ sep :: rest) = w :: split_on sep rest.
Proof.
  induction 1 as [| c w Hc _ IH].
  - cbn [app split_on]. unfold is_char. rewrite N.eqb_refl. reflexivity.
  - cbn [app split_on]. rewrite Hc, IH. reflexivity.
Qed.

Lemma split_on_nonempty (sep : ascii) (s : list ascii) : split_on sep s <> [].
Proof.
  destruct s as [| c s]; [discriminate |]. cbn [split_on].
  destruct (is_char sep c); [discriminate |]. destruct (split_on sep s); discriminate.
Qed.

Lemma lstrip_pad (pad s : list ascii) :
  Forall (fun c => is_space c = true) pad -> lstrip (pad ++ s) = lstrip s.
Proof.
  induction 1 as [| c pad Hc _ IH]; [reflexivity |].
  cbn [app lstrip]. rewrite Hc. exact IH.
Qed.

Lemma comma_free_pad (pad w : list ascii) :
  Forall (fun c => is_space c = true) pad ->
  Forall (fun c => c <> ","%char) w ->
  Forall (fun c => is_char ","%char c = false) (pad ++ w).
Proof.
  intros Hp Hw. apply Forall_app. split.
  - eapply Forall_impl; [exact Hp |]. intros c.
    destruct c as [[] [] [] [] [] [] [] []]; intros H; try reflexivity; discriminate.
  - eapply Forall_impl; [exact Hw |]. intros c Hc.
    destruct (is_char ","%char c) eqn:E; [| reflexivity].
    contradiction Hc. unfold is_char, code in E. apply N.eqb_eq in E.
    rewrite <- (ascii_N_embedding c), <- E. reflexivity.
Qed.

(** Parsing what was joined with a comma and some white space. *)
Lemma parse_joined (pad : list ascii) (exts : list string) :
  Forall (fun c => is_space c = true) pad ->
  Forall (fun e => Forall (fun c => c <> ","%char) (list_ascii_of_string e)
                   /\ strip e = e) exts ->
  forall (pad0 : list ascii) (e : string),
    Forall (fun c => is_space c = true) pad0 ->
    Forall (fun c => c <> ","%char) (list_ascii_of_string e) -> strip e = e ->
    map (fun w => string_of_list_ascii (Text.strip w))
      (split_on ","%char
         (pad0 ++ list_ascii_of_string
                    (String.concat (String ","%char (string_of_list_ascii pad))
                       (e :: exts))))
    = e :: exts.
Proof.
  intros Hpad. induction 1 as [| e2 exts [Hc2 Hs2] _ IH]; intros pad0 e Hpad0 Hc Hs.
  - cbn [String.concat]. rewrite split_on_last by (apply comma_free_pad; assumption).
    cbn [map]. unfold Text.strip. rewrite lstrip_pad by exact Hpad0.
    f_equal. exact Hs.
  - change (String.concat ?s (e :: e2 :: exts))
      with (e ++ s ++ String.concat s (e2 :: exts)).
    rewrite list_ascii_app.
    change (String ","%char (string_of_list_ascii pad) ++ ?r)
      with (String ","%char (string_of_list_ascii pad ++ r)).
    cbn [list_ascii_of_string]. rewrite list_ascii_app, list_ascii_of_string_of_list_ascii.
    rewrite app_assoc, split_on_word by (apply comma_free_pad; assumption).
    cbn [map]. rewrite (IH pad e2 Hpad Hc2 Hs2).
    unfold Text.strip. rewrite lstrip_pad by exact Hpad0.
    f_equal. exact Hs.
Qed.

Lemma parse_extensions_Str (v : string) :
  parse_extensions (Str v)
  = map (fun w => string_of_list_ascii (Text.strip w))
      (split_on ","%char (list_ascii_of_string v)).
Proof.
  unfold parse_extensions, split_commas, strip. rewrite map_map.
  apply map_ext. intros w. rewrite list_ascii_of_string_of_list_ascii. reflexivity.
Qed.

(** X21.  The validator of [allowed_extensions] reads back a list that was
    written with commas: when the list is not empty and no extension has a
    comma or white space at its ends, parsing the extensions joined by [,]
    or by [, ] (the form in which [validate_file] prints them) gives the
    list again.  A list passes unchanged, and the result for a string is
    never the empty list. *)
Theorem extensions_round_trip (exts : list string) (v : string) :
  exts <> [] ->
  Forall (fun e => Forall (fun c => c <> ","%char) (list_ascii_of_string e)
                   /\ strip e = e) exts ->
  parse_extensions (Str (String.concat "," exts)) = exts
  /\ parse_extensions (Str (String.concat ", " exts)) = exts
  /\ parse_extensions (Listed exts) = exts
  /\ parse_extensions (Str v) <> [].
Proof.
  intros Hne Hall. destruct exts as [| e exts]; [contradiction |].
  apply Forall_cons in Hall as [[Hc Hs] Hall].
  rewrite !parse_extensions_Str. split; [| split; [| split]].
  - apply (parse_joined [] exts (List.Forall_nil _) Hall [] e (List.Forall_nil _) Hc Hs).
  - apply (parse_joined [" "%char] exts ltac:(repeat constructor)
             Hall [] e (List.Forall_nil _) Hc Hs).
  - reflexivity.
  - intros H. apply map_eq_nil in H. apply (split_on_nonempty _ _ H).
Qed.

End Extensions.

Section TextSimilarity.

Import Preprocessor.
#[local] Open Scope Q_scope.

Variable D : TextDistance.

(** X22.  [calculate_text_similarity] is 0 when one of the texts is empty
    and otherwise the weighted mean, with weights 0.3, 0.4 and 0.3, of the
    three metrics on the normalised texts; when the metrics are fractions
    between 0 and 1 so is the result, and it lies between the least and
    the greatest of the three. *)
Theorem text_similarity_is_a_fraction (text1 text2 : string) :
  (forall a b, 0 <= jaccard D a b <= 1) ->
  (forall a b, 0 <= cosine D a b <= 1) ->
  (forall a b, 0 <= jaro_winkler D a b <= 1) ->
  let words1 := split (preprocess_text text1) in
  let words2 := split (preprocess_text text2) in
  let j := jaccard D words1 words2 in
  let c := cosine D words1 words2 in
  let w := jaro_winkler D (preprocess_text text1) (preprocess_text text2) in
  0 <= calculate_text_similarity D text1 text2 <= 1
  /\ calculate_text_similarity D "" text2 == 0
  /\ calculate_text_similarity D text1 "" == 0
  /\ (text1 <> "" -> text2 <> "" ->
      calculate_text_similarity D text1 text2 == 0.3 * j + 0.4 * c + 0.3 * w
      /\ Qmin j (Qmin c w) <= calculate_text_similarity D text1 text2
         <= Qmax j (Qmax c w)).
Proof.
  intros Hj Hc Hw. cbv zeta.
  specialize (Hj (split (preprocess_text text1)) (split (preprocess_text text2))).
  specialize (Hc (split (preprocess_text text1)) (split (preprocess_text text2))).
  specialize (Hw (preprocess_text text1) (preprocess_text text2)).
  split; [| split; [| split]].
  - unfold calculate_text_similarity.
    destruct text1; [lra |]. destruct text2; [lra |]. lra.
  - reflexivity.
  - destruct text1; reflexivity.
  - intros H1 H2. unfold calculate_text_similarity.
    destruct text1; [contradiction |]. destruct text2; [contradiction |].
    set (j := jaccard D _ _) in *. set (c := cosine D _ _) in *.
    set (w := jaro_winkler D _ _) in *.
    pose proof (Q.le_min_l j (Qmin c w)). pose proof (Q.le_min_r j (Qmin c w)).
    pose proof (Q.le_min_l c w). pose proof (Q.le_min_r c w).
    pose proof (Q.le_max_l j (Qmax c w)). pose proof (Q.le_max_r j (Qmax c w)).
    pose proof (Q.le_max_l c w). pose proof (Q.le_max_r c w).
    split; [lra |]. split; lra.
Qed.

End TextSimilarity.

Section ExtensionsExamples.

Import Settings Preprocessor Examples.
#[local] Open Scope Q_scope.

Lemma extensions_round_trip_witness :
  parse_extensions (Str "pdf,docx") = allowed_extensions.
Proof.
  apply (extensions_round_trip allowed_extensions "").
  - discriminate.
  - repeat constructor; try discriminate.
Defined.

Lemma text_similarity_is_a_fraction_witness :
  0 <= calculate_text_similarity exact_distance "Python developer" "python  DEVELOPER!" <= 1.
Proof.
  apply (text_similarity_is_a_fraction exact_distance
           "Python developer" "python  DEVELOPER!").
  - intros a b. cbn. destruct (bool_decide _); lra.
  - intros a b. cbn. destruct (bool_decide _); lra.
  - intros a b. cbn. destruct (String.eqb _ _); lra.
Defined.

End ExtensionsExamples.
